(** * context-weaver: relevance scoring and budgeted selection

    A shallow embedding of [src/index.ts] (class [ContextOptimizer]):
    [extractImports], [calculateRelevance] and [getOptimalContext],
    together with the properties of the specification that concern them.

    Modelling conventions.
    - A JavaScript [string] is a Rocq [string]; one [ascii] stands for one
      code unit below U+0100.  [toLowerCase] and the regular-expression
      classes are the language's on these code units ([\w] is ASCII, [\s]
      has the no-break space, the Latin-1 capitals have lower cases).
    - A query may hold any 16-bit code unit: the lower case of U+212A is
      [k] and that of U+0130 starts with [i], so lower-casing can create
      word characters.  [Wide] has such queries, [calculateRelevanceW]
      scores them, and [calculateRelevance] is its restriction to the
      queries that fit a Rocq [string]
      ([calculateRelevanceW_widen]).
    - A JavaScript [number] holding a score is an IEEE-754 binary64 value,
      taken from the Standard Library's [SpecFloat] with [prec = 53] and
      [emax = 1024]; additions, multiplications and subtractions round to
      nearest even exactly as the language prescribes.
    - Lengths, token estimates and the two budget options are integers
      ([nat], [Z]); below 2^53 the arithmetic performed on them by the
      source is exact.
    - [Map] and [Set] keep insertion order: they are association lists and
      duplicate-free lists, with [get], [set] and [add] written out.  A
      catalog is well formed ([JsMap.wf]) when no key occurs twice, which
      every [Map] satisfies.
    - [calculateRelevance] mutates the records of [this.files]: it is a
      state-passing loop that returns the catalog after the pass together
      with the [scores] map.
    - [Array.prototype.sort] is stable; it is the stable insertion sort
      driven by the sign of the comparator.
    - [path.basename], [path.extname] and [path.sep] are the POSIX ones of
      Node.js; [path.join] and [path.relative] are parameters of the scan.
    - The file system seen by [scanProject] is a tree of entries in which
      [readdir], [stat] and [readFile] may fail; a failure is caught by
      the source and leaves the catalog as it is.  Console output is not
      modelled.  [generateContextSummary] formats numbers with the host
      locale and is left out. *)

From Stdlib Require Import ZArith NArith List Bool Ascii String Lia Arith Permutation.
From Stdlib Require Import Floats.SpecFloat.
Import ListNotations.

Set Implicit Arguments.

Local Open Scope string_scope.
Local Open Scope list_scope.

(* ================================================================== *)
(** * Strings *)
(* ================================================================== *)

Module Str.

Definition code (c : ascii) : nat := nat_of_ascii c.

Definition between (lo hi : nat) (c : ascii) : bool :=
  (lo <=? code c)%nat && (code c <=? hi)%nat.

Definition isUpper : ascii -> bool := between 65 90.
Definition isLower : ascii -> bool := between 97 122.
Definition isDigit : ascii -> bool := between 48 57.

(** The capital letters of the Latin-1 supplement: U+00C0 to U+00DE
    without the multiplication sign U+00D7. *)
Definition isUpperLatin1 (c : ascii) : bool :=
  between 192 214 c || between 216 222 c.

(** [String.prototype.toLowerCase] on the code units below U+0100. *)
Definition lowerChar (c : ascii) : ascii :=
  if isUpper c || isUpperLatin1 c then ascii_of_nat (code c + 32) else c.

Fixpoint toLowerCase (s : string) : string :=
  match s with
  | EmptyString => EmptyString
  | String c s' => String (lowerChar c) (toLowerCase s')
  end.

Fixpoint startsWith (s p : string) {struct p} : bool :=
  match p, s with
  | EmptyString, _ => true
  | String _ _, EmptyString => false
  | String a p', String b s' => Ascii.eqb a b && startsWith s' p'
  end.

(** [String.prototype.includes]: [sub] occurs somewhere in [s]. *)
Fixpoint includes (s sub : string) : bool :=
  startsWith s sub ||
  match s with
  | EmptyString => false
  | String _ s' => includes s' sub
  end.

Fixpoint drop (n : nat) (s : string) : string :=
  match n, s with
  | O, _ => s
  | S n', String _ s' => drop n' s'
  | S _, EmptyString => EmptyString
  end.

Fixpoint take (n : nat) (s : string) : string :=
  match n, s with
  | S n', String c s' => String c (take n' s')
  | _, _ => EmptyString
  end.

Definition isEmpty (s : string) : bool :=
  match s with EmptyString => true | _ => false end.

(** [Array.prototype.includes] on an array of strings. *)
Definition mem (x : string) (l : list string) : bool :=
  existsb (String.eqb x) l.

Definition slash : ascii := "/"%char.

(** [path.basename] (POSIX): the last non-empty segment between
    slashes, the empty string when there is none. *)
Fixpoint basenameFrom (s : string) (last cur : string) : string :=
  match s with
  | EmptyString => if isEmpty cur then last else cur
  | String c s' =>
      if Ascii.eqb c slash
      then basenameFrom s' (if isEmpty cur then last else cur) EmptyString
      else basenameFrom s' last (cur ++ String c EmptyString)
  end.

Definition basename (p : string) : string :=
  basenameFrom p EmptyString EmptyString.

End Str.

(* ================================================================== *)
(** * Insertion-ordered [Set<string>] and [Map<string, V>] *)
(* ================================================================== *)

Module JsSet.

Definition t := list string.

Definition empty : t := [].

Definition add (x : string) (s : t) : t :=
  if Str.mem x s then s else s ++ [x].

(** [new Set(array)] *)
Definition ofList (l : list string) : t :=
  fold_left (fun s x => add x s) l empty.

End JsSet.

Module JsMap.

Section WithValue.
Variable V : Type.

Definition t := list (string * V).

Fixpoint get (k : string) (m : t) : option V :=
  match m with
  | [] => None
  | (k', v) :: m' => if String.eqb k k' then Some v else get k m'
  end.

(** [Map.prototype.set]: an existing key keeps its position. *)
Fixpoint set (k : string) (v : V) (m : t) : t :=
  match m with
  | [] => [(k, v)]
  | (k', v') :: m' =>
      if String.eqb k k' then (k, v) :: m' else (k', v') :: set k v m'
  end.

Definition keys (m : t) : list string := map fst m.
Definition values (m : t) : list V := map snd m.

(** A well-formed map holds each key once. *)
Definition wf (m : t) : Prop := NoDup (keys m).

End WithValue.

End JsMap.

(* ================================================================== *)
(** * Regular expressions of the import patterns *)
(* ================================================================== *)

Module Regex.

Definition cls := ascii -> bool.

(** The patterns of [extractImports] are sequences of literal text,
    single characters of a class, greedy repetitions of a class and one
    capturing group around a greedy repetition. *)
Inductive node :=
| Lit (s : string)     (* literal text *)
| One (p : cls)        (* [..] *)
| Plus (p : cls)       (* [..]+ *)
| Star (p : cls)       (* [..]* *)
| Group (p : cls).     (* ([..]+), group 1 *)

Definition regex := list node.

Definition dquote : ascii := ascii_of_nat 34.
Definition squote : ascii := ascii_of_nat 39.
Definition newline : ascii := ascii_of_nat 10.
Definition creturn : ascii := ascii_of_nat 13.

Definition chr (a : ascii) : cls := fun c => Ascii.eqb c a.
Definition orc (p q : cls) : cls := fun c => p c || q c.
Definition notc (p : cls) : cls := fun c => negb (p c).

(** [\w] *)
Definition word : cls :=
  fun c => Str.isUpper c || Str.isLower c || Str.isDigit c || Ascii.eqb c "_"%char.
(** [\s] on the code units below U+0100: tab to carriage return, space
    and the no-break space U+00A0. *)
Definition space : cls :=
  fun c => Str.between 9 13 c || Ascii.eqb c " "%char
           || Ascii.eqb c (ascii_of_nat 160).
(** [.] without the [s] flag: anything but a line terminator. *)
Definition dot : cls := notc (orc (chr newline) (chr creturn)).
Definition quote : cls := orc (chr squote) (chr dquote).

(** Length of the longest prefix of [s] made of characters of [p]. *)
Fixpoint span (p : cls) (s : string) : nat :=
  match s with
  | String c s' => if p c then S (span p s') else O
  | EmptyString => O
  end.

(** Greedy repetition with backtracking: try [n], [n-1], ... down to
    [lo] repetitions. *)
Fixpoint tryCounts (R : Type) (k : nat -> option R) (lo n : nat) : option R :=
  if (n <? lo)%nat then None
  else match k n with
       | Some r => Some r
       | None => match n with
                 | O => None
                 | S n' => tryCounts k lo n'
                 end
       end.

(** Match [r] at the start of [s]; the result is group 1 and the input
    left after the match. *)
Fixpoint matchHere (r : regex) (s : string) (cap : option string)
  : option (option string * string) :=
  match r with
  | [] => Some (cap, s)
  | Lit l :: r' =>
      if Str.startsWith s l then matchHere r' (Str.drop (String.length l) s) cap
      else None
  | One p :: r' =>
      match s with
      | String c s' => if p c then matchHere r' s' cap else None
      | EmptyString => None
      end
  | Plus p :: r' =>
      tryCounts (fun n => matchHere r' (Str.drop n s) cap) 1 (span p s)
  | Star p :: r' =>
      tryCounts (fun n => matchHere r' (Str.drop n s) cap) 0 (span p s)
  | Group p :: r' =>
      tryCounts (fun n => matchHere r' (Str.drop n s) (Some (Str.take n s)))
                1 (span p s)
  end.

(** [RegExp.prototype.exec] from the current [lastIndex]: the leftmost
    match in [s]; the second component is the input after the match,
    where the next [exec] resumes. *)
Fixpoint exec (r : regex) (s : string) : option (option string * string) :=
  match matchHere r s None with
  | Some m => Some m
  | None =>
      match s with
      | EmptyString => None
      | String _ s' => exec r s'
      end
  end.

End Regex.

(* ================================================================== *)
(** * Import extraction *)
(* ================================================================== *)

Import Regex.

Definition pyPatterns : list regex :=
  [ [Lit "from"; Plus space; Group (orc (chr "."%char) word); Plus space; Lit "import"];
    [Lit "import"; Plus space; Group (orc (chr "."%char) word)] ].

Definition jsPatterns : list regex :=
  [ [Lit "from"; Plus space; One quote; Group (notc quote); One quote];
    [Lit "require("; One quote; Group (notc quote); One quote; Lit ")"];
    [Lit "import"; Plus space; One quote; Group (notc quote); One quote];
    [Lit "import"; Plus space; Star dot; Plus space; Lit "from"; Plus space;
     One quote; Group (notc quote); One quote] ].

Definition javaPatterns : list regex :=
  [ [Lit "import"; Plus space; Group (orc (chr "."%char) word); Lit ";"] ].

Definition goPatterns : list regex :=
  [ [Lit "import"; Plus space; One quote; Group (notc quote); One quote] ].

Definition rsPatterns : list regex :=
  [ [Lit "use"; Plus space; Group (orc (chr ":"%char) word)] ].

Definition cPatterns : list regex :=
  [ [Lit "#include"; Plus space; One (orc (chr "<"%char) (chr dquote));
     Group (notc (orc (chr ">"%char) (chr dquote)));
     One (orc (chr ">"%char) (chr dquote))] ].

(** The case labels of the [switch] in [extractImports]. *)
Definition pyExtensions : list string := [".py"].
Definition jsExtensions : list string :=
  [".js"; ".ts"; ".jsx"; ".tsx"; ".vue"; ".svelte"].
Definition javaExtensions : list string := [".java"].
Definition goExtensions : list string := [".go"].
Definition rsExtensions : list string := [".rs"].
Definition cExtensions : list string := [".cpp"; ".c"; ".h"; ".hpp"].

Definition configuredExtensions : list string :=
  pyExtensions ++ jsExtensions ++ javaExtensions ++ goExtensions
  ++ rsExtensions ++ cExtensions.

(** The [switch (extension)]; [None] is the [default] branch. *)
Definition patternsFor (extension : string) : option (list regex) :=
  if Str.mem extension pyExtensions then Some pyPatterns
  else if Str.mem extension jsExtensions then Some jsPatterns
  else if Str.mem extension javaExtensions then Some javaPatterns
  else if Str.mem extension goExtensions then Some goPatterns
  else if Str.mem extension rsExtensions then Some rsPatterns
  else if Str.mem extension cExtensions then Some cPatterns
  else None.

(** [while ((match = pattern.exec(content)) !== null)]: every iteration
    consumes at least one character of the remaining input, so
    [S (length content)] iterations are always enough. *)
Fixpoint execLoop (fuel : nat) (pattern : regex) (rest : string)
                  (imports : JsSet.t) : JsSet.t :=
  match fuel with
  | O => imports
  | S fuel' =>
      match exec pattern rest with
      | None => imports
      | Some (None, rest') => execLoop fuel' pattern rest' imports
      | Some (Some g, rest') =>
          if Str.isEmpty g then execLoop fuel' pattern rest' imports
          else execLoop fuel' pattern rest' (JsSet.add g imports)
      end
  end.

Definition extractImports (content extension : string) : JsSet.t :=
  let imports := JsSet.empty in
  match patternsFor extension with
  | None => imports
  | Some patterns =>
      fold_left
        (fun imports pattern =>
           execLoop (S (String.length content)) pattern content imports)
        patterns imports
  end.

Definition pyExample : string :=
  "import os" ++ String newline "from collections import OrderedDict".


(* ================================================================== *)
(** * JavaScript numbers (scores) *)
(* ================================================================== *)

Module Num.

Definition number := spec_float.

Definition prec : Z := 53.
Definition emax : Z := 1024.

Definition add : number -> number -> number := SFadd prec emax.
Definition sub : number -> number -> number := SFsub prec emax.
Definition mul : number -> number -> number := SFmul prec emax.
Definition div : number -> number -> number := SFdiv prec emax.

(** The number denoted by an integer. *)
Definition ofZ (z : Z) : number := binary_normalize prec emax z 0 false.
Definition ofNat (n : nat) : number := ofZ (Z.of_nat n).

Definition zero : number := S754_zero false.

(** The literals of the scorer.  A decimal literal denotes the double
    nearest to it, which is what the correctly rounded quotient of the
    two integers gives. *)
Definition lit2 : number := Eval vm_compute in ofZ 2.
Definition lit5 : number := Eval vm_compute in ofZ 5.
Definition lit8 : number := Eval vm_compute in ofZ 8.
Definition lit10 : number := Eval vm_compute in ofZ 10.
Definition lit15 : number := Eval vm_compute in ofZ 15.
Definition lit0_5 : number := Eval vm_compute in div (ofZ 5) (ofZ 10).
Definition lit0_7 : number := Eval vm_compute in div (ofZ 7) (ofZ 10).
Definition lit0_8 : number := Eval vm_compute in div (ofZ 8) (ofZ 10).

(** [x === 0], [x > 0], [x >= 0] *)
Definition isZero (x : number) : bool := SFeqb x zero.
Definition gt0 (x : number) : bool := SFltb zero x.
Definition ge0 (x : number) : bool := SFleb zero x.

Definition eq_dec (x y : number) : {x = y} + {x <> y}.
Proof.
  decide equality; try apply Bool.bool_dec.
  - apply Z.eq_dec.
  - apply Pos.eq_dec.
Defined.

End Num.

Import Num.

(* ================================================================== *)
(** * Data model *)
(* ================================================================== *)

Record FileInfo := mkFileInfo {
  path : string;
  size : Z;
  extension : string;
  imports : JsSet.t;
  relevanceScore : number;
  content : string
}.

Record ContextConfig := mkContextConfig {
  maxTokens : option Z;
  minFiles : option Z;
  maxFileSize : option Z;
  contextFiles : option (list string)
}.

(** [this.files] *)
Definition Catalog := JsMap.t FileInfo.

(** [fileInfo.relevanceScore = score] *)
Definition setScore (fileInfo : FileInfo) (score : number) : FileInfo :=
  {| path := path fileInfo;
     size := size fileInfo;
     extension := extension fileInfo;
     imports := imports fileInfo;
     relevanceScore := score;
     content := content fileInfo |}.

(* ================================================================== *)
(** * Relevance scoring *)
(* ================================================================== *)

(** [text.match(/\w+/g) || []]: the successive matches of [\w+]. *)
Fixpoint matchAll (fuel : nat) (pattern : regex) (rest : string) : list string :=
  match fuel with
  | O => []
  | S fuel' =>
      match exec pattern rest with
      | Some (Some g, rest') => g :: matchAll fuel' pattern rest'
      | _ => []
      end
  end.

Definition wordPattern : regex := [Group word].

Definition tokenize (query : string) : JsSet.t :=
  let queryLower := Str.toLowerCase query in
  JsSet.ofList (matchAll (S (String.length queryLower)) wordPattern queryLower).

Section ScoreOfFile.

Variable files : Catalog.
Variable queryWords : JsSet.t.
Variable ctx : option (list string).

(** Number of query words contained in [text]. *)
Definition countMatches (text : string) : nat :=
  List.length (filter (fun word => Str.includes text word) queryWords).

Definition filenameTerm (filename : string) (score : number) : number :=
  if existsb (fun word => Str.includes filename word) queryWords
  then add score lit10 else score.

Definition pathTerm (pathLower : string) (score : number) : number :=
  let pathMatches := countMatches pathLower in
  add score (mul (ofNat pathMatches) lit5).

Definition contentTerm (fileInfo : FileInfo) (score : number) : number :=
  let contentLower := Str.toLowerCase (content fileInfo) in
  let contentMatches := countMatches contentLower in
  add score (mul (ofNat contentMatches) lit2).

(** [contextFiles?.includes(relativePath)] *)
Definition seedTerm (relativePath : string) (score : number) : number :=
  match ctx with
  | Some contextFiles =>
      if Str.mem relativePath contextFiles then add score lit15 else score
  | None => score
  end.

(** Body of [for (const ctxFile of contextFiles)]. *)
Definition reachStep (relativePath : string) (score : number)
                     (ctxFile : string) : number :=
  match JsMap.get ctxFile files with
  | Some ctxFileInfo =>
      if existsb (fun imp => Str.includes relativePath imp) (imports ctxFileInfo)
      then add score lit8 else score
  | None => score
  end.

Definition reachTerm (relativePath : string) (score : number) : number :=
  match ctx with
  | Some contextFiles => fold_left (reachStep relativePath) contextFiles score
  | None => score
  end.

Definition decay (fileInfo : FileInfo) (pathLower : string)
                 (score : number) : number :=
  if Str.mem (extension fileInfo) [".md"; ".txt"] then mul score lit0_5
  else if Str.includes pathLower "test" || Str.includes pathLower "spec"
  then mul score lit0_7
  else if Str.includes pathLower "config"
          || Str.mem (extension fileInfo) [".json"; ".yaml"; ".yml"; ".toml"]
  then mul score lit0_8
  else score.

Definition isEntryPoint (filename : string) : bool :=
  String.eqb filename "package.json"
  || String.eqb filename "main.py"
  || String.eqb filename "index.ts".

Definition entryTerm (filename : string) (score : number) : number :=
  if isEntryPoint filename then add score lit5 else score.

(** The score before the category decay. *)
Definition additive (relativePath : string) (fileInfo : FileInfo) : number :=
  let score := zero in
  let filename := Str.toLowerCase (Str.basename relativePath) in
  let score := filenameTerm filename score in
  let pathLower := Str.toLowerCase relativePath in
  let score := pathTerm pathLower score in
  let score := contentTerm fileInfo score in
  let score := seedTerm relativePath score in
  reachTerm relativePath score.

(** Body of the loop over [this.files]. *)
Definition scoreFile (relativePath : string) (fileInfo : FileInfo) : number :=
  let filename := Str.toLowerCase (Str.basename relativePath) in
  let pathLower := Str.toLowerCase relativePath in
  let score := additive relativePath fileInfo in
  let score := decay fileInfo pathLower score in
  entryTerm filename score.

End ScoreOfFile.

Definition ScoreMap := JsMap.t number.

(** One iteration: the score is computed against the catalog as it is
    now, written to the record, and stored in [scores]. *)
Definition relevanceStep (queryWords : JsSet.t) (ctx : option (list string))
    (st : Catalog * ScoreMap) (entry : string * FileInfo) : Catalog * ScoreMap :=
  let '(files, scores) := st in
  let '(relativePath, fileInfo) := entry in
  let score := scoreFile files queryWords ctx relativePath fileInfo in
  (JsMap.set relativePath (setScore fileInfo score) files,
   JsMap.set relativePath score scores).

(** [calculateRelevance]: the catalog with its scores rewritten, and the
    returned [scores] map. *)
Definition calculateRelevance (files : Catalog) (query : string)
    (ctx : option (list string)) : Catalog * ScoreMap :=
  let queryWords := tokenize query in
  fold_left (relevanceStep queryWords ctx) files (files, []).

(* ================================================================== *)
(** * Queries of 16-bit code units *)
(* ================================================================== *)

Module Wide.

(** A string as the language has it: a sequence of 16-bit code units. *)
Definition ustring := list N.

Definition between (lo hi u : N) : bool := ((lo <=? u) && (u <=? hi))%N.

(** [\w] on a code unit. *)
Definition isWord (u : N) : bool :=
  between 65 90 u || between 97 122 u || between 48 57 u || (u =? 95)%N.

(** The lower case of one code unit.  It is the language's on the code
    units below U+0100 and on U+0130 and U+212A, the only code points
    beyond whose lower case holds a word character; the other code units
    are left as they are, which differs from the language by code units
    that are no word characters, before and after. *)
Definition lowerUnit (u : N) : list N :=
  if between 65 90 u || between 192 214 u || between 216 222 u
  then [(u + 32)%N]
  else if (u =? 304)%N then [105%N; 775%N]
  else if (u =? 8490)%N then [107%N]
  else [u].

(** [String.prototype.toLowerCase] *)
Definition toLowerCase (s : ustring) : ustring := flat_map lowerUnit s.

(** The code units below U+0100 as they are, the others as U+00FF: this
    keeps every word character, turns no other code unit into one, and so
    leaves the matches of [\w+] as they are. *)
Definition narrowUnit (u : N) : ascii :=
  if (u <? 256)%N then ascii_of_N u else ascii_of_N 255.

Fixpoint narrow (s : ustring) : string :=
  match s with
  | [] => EmptyString
  | u :: s' => String (narrowUnit u) (narrow s')
  end.

Fixpoint widen (s : string) : ustring :=
  match s with
  | EmptyString => []
  | String c s' => N_of_ascii c :: widen s'
  end.

End Wide.

(** [new Set(queryLower.match(/\w+/g) || [])] for a query of 16-bit code
    units; the matches are strings of ASCII word characters. *)
Definition tokenizeW (query : Wide.ustring) : JsSet.t :=
  let queryLower := Wide.toLowerCase query in
  JsSet.ofList (matchAll (S (List.length queryLower)) wordPattern
                         (Wide.narrow queryLower)).

(** [calculateRelevance] on a query of 16-bit code units. *)
Definition calculateRelevanceW (files : Catalog) (query : Wide.ustring)
    (ctx : option (list string)) : Catalog * ScoreMap :=
  let queryWords := tokenizeW query in
  fold_left (relevanceStep queryWords ctx) files (files, []).

(* ================================================================== *)
(** * Budgeted selection *)
(* ================================================================== *)

(** [Array.prototype.sort(comparefn)].  The language requires the sort to
    be stable and to order by the sign of [comparefn]; it is modelled by
    the stable insertion sort: an element moves behind a later one only
    when [comparefn] is positive on the pair. *)
Section Sort.
Variable A : Type.
Variable comparefn : A -> A -> number.

Fixpoint insert (x : A) (l : list A) : list A :=
  match l with
  | [] => [x]
  | y :: l' => if gt0 (comparefn x y) then y :: insert x l' else x :: l
  end.

Definition sort (l : list A) : list A := fold_right insert [] l.
End Sort.

(** [(a, b) => b.relevanceScore - a.relevanceScore] *)
Definition byScoreDesc (a b : FileInfo) : number :=
  sub (relevanceScore b) (relevanceScore a).

(** [Math.ceil(fileInfo.content.length / 4)] *)
Definition fileTokens (fileInfo : FileInfo) : Z :=
  (Z.of_nat (String.length (content fileInfo)) + 3) / 4.

(** State of the selection loop: [selected] and [totalTokens]. *)
Definition SelState := (list FileInfo * Z)%type.

Inductive outcome :=
| Break
| Next (st : SelState).

(** Body of [for (const fileInfo of sortedFiles)]. *)
Definition selectStep (maxTok minF : Z) (st : SelState)
                      (fileInfo : FileInfo) : outcome :=
  let '(selected, totalTokens) := st in
  if isZero (relevanceScore fileInfo)
     && (minF <=? Z.of_nat (List.length selected))%Z
  then Break
  else
    let fileTokens := fileTokens fileInfo in
    if (totalTokens + fileTokens <=? maxTok)%Z
    then Next (selected ++ [fileInfo], (totalTokens + fileTokens)%Z)
    else if (Z.of_nat (List.length selected) <? minF)%Z
    then Next (selected ++ [fileInfo], (totalTokens + fileTokens)%Z)
    else Next st.

Fixpoint selectLoop (maxTok minF : Z) (sortedFiles : list FileInfo)
                    (st : SelState) : SelState :=
  match sortedFiles with
  | [] => st
  | fileInfo :: rest =>
      match selectStep maxTok minF st fileInfo with
      | Break => st
      | Next st' => selectLoop maxTok minF rest st'
      end
  end.

Definition orDefault (A : Type) (o : option A) (d : A) : A :=
  match o with Some x => x | None => d end.

(** The list walked by the selection loop. *)
Definition sortedFiles (files : Catalog) (query : string)
                       (config : ContextConfig) : list FileInfo :=
  let contextFiles := orDefault (contextFiles config) [] in
  let files' := fst (calculateRelevance files query (Some contextFiles)) in
  sort byScoreDesc (JsMap.values files').

(** [getOptimalContext]: the catalog after scoring and the selection. *)
Definition getOptimalContext (files : Catalog) (query : string)
    (config : ContextConfig) : Catalog * list FileInfo :=
  let maxTokens := orDefault (maxTokens config) 100000%Z in
  let minFiles := orDefault (minFiles config) 3%Z in
  let contextFiles := orDefault (contextFiles config) [] in
  let files' := fst (calculateRelevance files query (Some contextFiles)) in
  let sortedFiles := sort byScoreDesc (JsMap.values files') in
  (files', fst (selectLoop maxTokens minFiles sortedFiles ([], 0%Z))).

(* ================================================================== *)
(** * Scanning: ignore rules, [processFile], [scanDirectory] *)
(* ================================================================== *)

Module Path.

(** [filePath.split(path.sep)] with the POSIX separator. *)
Fixpoint splitFrom (s cur : string) : list string :=
  match s with
  | EmptyString => [cur]
  | String c s' =>
      if Ascii.eqb c Str.slash then cur :: splitFrom s' EmptyString
      else splitFrom s' (cur ++ String c EmptyString)
  end.

Definition split (p : string) : list string := splitFrom p EmptyString.

(** The part of [s] from its last dot on. *)
Fixpoint lastDotSuffix (s : string) : option string :=
  match s with
  | EmptyString => None
  | String c s' =>
      match lastDotSuffix s' with
      | Some e => Some e
      | None => if Ascii.eqb c "."%char then Some s else None
      end
  end.

(** [path.extname] (POSIX): from the last dot of the base name on; empty
    when there is no dot, when the only dot starts the base name, and for
    the base name [..]. *)
Definition extname (p : string) : string :=
  let base := Str.basename p in
  match base with
  | EmptyString => EmptyString
  | String _ rest =>
      match lastDotSuffix rest with
      | Some e => if String.eqb base ".." then EmptyString else e
      | None => EmptyString
      end
  end.

End Path.

Definition IGNORE_PATTERNS : list string :=
  ["node_modules"; ".git"; "__pycache__"; ".venv"; "venv"; "dist"; "build";
   ".next"; ".pytest_cache"; "coverage"; ".DS_Store"; "package-lock.json";
   "yarn.lock"; "pnpm-lock.yaml"].

Definition IGNORE_EXTENSIONS : list string :=
  [".pyc"; ".pyo"; ".so"; ".dylib"; ".dll"; ".exe"; ".bin"; ".lock"].

Definition CODE_EXTENSIONS : list string :=
  [".py"; ".js"; ".ts"; ".jsx"; ".tsx"; ".java"; ".cpp"; ".c"; ".h"; ".hpp";
   ".cs"; ".go"; ".rs"; ".rb"; ".php"; ".swift"; ".kt"; ".sql"; ".sh";
   ".bash"; ".yaml"; ".yml"; ".json"; ".toml"; ".md"; ".vue"; ".svelte"].

(** [fileName.match(/^\.(env|gitignore|eslintrc|prettierrc)/)] *)
Definition dotfileKept (fileName : string) : bool :=
  Str.startsWith fileName ".env" || Str.startsWith fileName ".gitignore"
  || Str.startsWith fileName ".eslintrc" || Str.startsWith fileName ".prettierrc".

Definition shouldIgnore (filePath : string) : bool :=
  let parts := Path.split filePath in
  let fileName := Str.basename filePath in
  let ext := Str.toLowerCase (Path.extname filePath) in
  if existsb (fun pattern =>
                existsb (fun part => String.eqb part pattern
                                     || Str.includes part pattern) parts)
             IGNORE_PATTERNS
  then true
  else if Str.mem ext IGNORE_EXTENSIONS then true
  else if Str.startsWith fileName "." && negb (dotfileKept fileName) then true
  else false.

(** What the file system answers: [stat] and [readFile] of a file may
    fail ([None]), as may [readdir] of a directory; an entry that is
    neither a directory nor a regular file is [FsOther]. *)
Inductive fsNode :=
| FsFile (stat : option Z) (data : option string)
| FsDir (listing : dirListing)
| FsOther
with dirListing :=
| Unreadable
| Entries (entries : fsEntries)
with fsEntries :=
| FsNil
| FsCons (name : string) (child : fsNode) (rest : fsEntries).

Section Scan.

(** [path.join] and [path.relative] of the platform, and [this.rootPath]. *)
Variable join : string -> string -> string.
Variable relative : string -> string -> string.
Variable rootPath : string.

(** [processFile]; a failing [stat] or [readFile] is caught and leaves
    the catalog as it is. *)
Definition processFile (files : Catalog) (filePath : string)
    (stat : option Z) (data : option string) (maxFileSize : Z) : Catalog :=
  let ext := Str.toLowerCase (Path.extname filePath) in
  if negb (Str.mem ext CODE_EXTENSIONS) then files
  else
    match stat with
    | None => files
    | Some statSize =>
        if (maxFileSize <? statSize)%Z then files
        else
          match data with
          | None => files
          | Some content =>
              let relativePath := relative rootPath filePath in
              let imports := extractImports content ext in
              JsMap.set relativePath
                {| path := relativePath; size := statSize; extension := ext;
                   imports := imports; relevanceScore := zero;
                   content := content |} files
          end
    end.

(** [scanDirectory]; [scanEntries] is its loop over [entries]. *)
Fixpoint scanDirectory (dirPath : string) (maxFileSize : Z)
    (listing : dirListing) (files : Catalog) : Catalog :=
  match listing with
  | Unreadable => files
  | Entries entries => scanEntries dirPath maxFileSize entries files
  end
with scanEntries (dirPath : string) (maxFileSize : Z)
    (entries : fsEntries) (files : Catalog) : Catalog :=
  match entries with
  | FsNil => files
  | FsCons name child rest =>
      let fullPath := join dirPath name in
      if shouldIgnore fullPath then scanEntries dirPath maxFileSize rest files
      else
        match child with
        | FsDir listing =>
            scanEntries dirPath maxFileSize rest
              (scanDirectory fullPath maxFileSize listing files)
        | FsFile stat data =>
            scanEntries dirPath maxFileSize rest
              (processFile files fullPath stat data maxFileSize)
        | FsOther => scanEntries dirPath maxFileSize rest files
        end
  end.

(** [scanProject], from the catalog the object holds. *)
Definition scanProject (maxFileSize : option Z) (tree : dirListing)
    (files : Catalog) : Catalog :=
  scanDirectory rootPath (orDefault maxFileSize 1000000%Z) tree files.

End Scan.

(* ================================================================== *)
(** * Export *)
(* ================================================================== *)

Module Out.
Record file := mkFile {
  path : string;
  relevanceScore : number;
  size : Z;
  extension : string
}.
Record t := mk {
  query : string;
  files : list file;
  totalSize : Z;
  estimatedTokens : Z
}.
End Out.

Definition exportContext (query : string) (files : list FileInfo) : Out.t :=
  let totalSize := fold_left (fun sum f => (sum + size f)%Z) files 0%Z in
  let totalTokens := fold_left (fun sum f => (sum + fileTokens f)%Z) files 0%Z in
  {| Out.query := query;
     Out.files := map (fun f => {| Out.path := path f;
                                   Out.relevanceScore := relevanceScore f;
                                   Out.size := size f;
                                   Out.extension := extension f |}) files;
     Out.totalSize := totalSize;
     Out.estimatedTokens := totalTokens |}.

(* ================================================================== *)
(** * Auxiliary definitions for the statements *)
(* ================================================================== *)

(** ** Non-negative numbers *)

(** Non-negative values: [+0], positive finite numbers and [+Infinity]. *)
Definition nonneg (x : number) : Prop :=
  match x with
  | S754_zero false | S754_infinity false | S754_finite false _ _ => True
  | _ => False
  end.

Definition posFinite (x : number) : Prop :=
  match x with
  | S754_finite false _ _ => True
  | _ => False
  end.

(** ** The scoring pass, entry by entry *)

(** A catalog entry after the pass, and the entry of [scores] it yields. *)
Definition rescore (files : Catalog) (qw : JsSet.t) (ctx : option (list string))
    (entry : string * FileInfo) : string * FileInfo :=
  (fst entry, setScore (snd entry) (scoreFile files qw ctx (fst entry) (snd entry))).

Definition scoreEntry (files : Catalog) (qw : JsSet.t) (ctx : option (list string))
    (entry : string * FileInfo) : string * number :=
  (fst entry, scoreFile files qw ctx (fst entry) (snd entry)).

(** What scoring reads of the other files: their keys and import sets. *)
Definition importsOf (files : Catalog) : list (string * JsSet.t) :=
  map (fun entry => (fst entry, imports (snd entry))) files.

(** ** Reaching seeds *)

(** Seed [ctxFile] reaches [relativePath]: it is in the catalog and one
    of its import targets is a substring of the path. *)
Definition reaches (files : Catalog) (relativePath ctxFile : string) : bool :=
  match JsMap.get ctxFile files with
  | Some ctxFileInfo =>
      existsb (fun imp => Str.includes relativePath imp) (imports ctxFileInfo)
  | None => false
  end.

(** Number of entries of [contextFiles] that reach [relativePath]. *)
Definition reachCount (files : Catalog) (relativePath : string)
                      (contextFiles : list string) : nat :=
  List.length (filter (reaches files relativePath) contextFiles).

Definition add8 (score : number) : number := add score lit8.

(** The score as it stands when the loop over [contextFiles] starts. *)
Definition beforeReach (qw : JsSet.t) (ctx : option (list string))
                       (relativePath : string) (fileInfo : FileInfo) : number :=
  seedTerm ctx relativePath
    (contentTerm qw fileInfo
       (pathTerm qw (Str.toLowerCase relativePath)
          (filenameTerm qw (Str.toLowerCase (Str.basename relativePath)) zero))).

(** ** Patterns whose matches are never empty *)

Definition consuming (r : regex) : bool :=
  match r with
  | Lit (String _ _) :: _ | One _ :: _ | Plus _ :: _ | Group _ :: _ => true
  | _ => false
  end.

(** ** Queries, score classes and ordered lists *)

(** Some character of [s] is in the class [p]. *)
Fixpoint anyChar (p : cls) (s : string) : bool :=
  match s with
  | EmptyString => false
  | String c s' => p c || anyChar p s'
  end.

Definition entryPointNames : list string :=
  ["package.json"; "main.py"; "index.ts"].

Definition score0 (f : FileInfo) : Prop := isZero (relevanceScore f) = true.
Definition scoreNonneg (f : FileInfo) : Prop := nonneg (relevanceScore f).

(** In a list ordered by [byScoreDesc], a zero score is followed by zero
    scores only. *)
Fixpoint zeroTail (l : list FileInfo) : Prop :=
  match l with
  | [] => True
  | x :: l' => (score0 x -> Forall score0 l') /\ zeroTail l'
  end.

(** Stability: the records of one score keep their relative order. *)
Definition hasScore (s : number) (f : FileInfo) : bool :=
  if Num.eq_dec (relevanceScore f) s then true else false.

(** ** Example catalogs *)

(** The seed of the specification's example and its neighbour. *)
Definition apiContent : string :=
  "import { query } from " ++ String squote ("./db" ++ String squote ";").

Definition apiFile : FileInfo :=
  {| path := "api.ts"; size := 29; extension := ".ts";
     imports := extractImports apiContent ".ts";
     relevanceScore := zero; content := apiContent |}.

Definition clientFile : FileInfo :=
  {| path := "src/db/client.ts"; size := 19; extension := ".ts";
     imports := []; relevanceScore := zero;
     content := "export const c = 1;" |}.

Definition seedCatalog : Catalog :=
  [("api.ts", apiFile); ("src/db/client.ts", clientFile)].

(** A seed importing ["/db"] does reach [src/db/client.ts]. *)
Definition apiFile' : FileInfo :=
  {| path := "api.ts"; size := 29; extension := ".ts";
     imports := ["/db"]; relevanceScore := zero; content := apiContent |}.

Definition seedCatalog' : Catalog :=
  [("api.ts", apiFile'); ("src/db/client.ts", clientFile)].

Definition settingsFile : FileInfo :=
  {| path := "docs/config/settings.md"; size := 23; extension := ".md";
     imports := []; relevanceScore := zero;
     content := "Authentication settings" |}.

Definition docsCatalog : Catalog :=
  [("docs/config/settings.md", settingsFile); ("src/db/client.ts", clientFile)].

Definition packageFile : FileInfo :=
  {| path := "web/package.json"; size := 32; extension := ".json";
     imports := []; relevanceScore := zero;
     content := "{ name: client, main: index.js }" |}.

Definition webCatalog : Catalog :=
  [("web/package.json", packageFile); ("src/db/client.ts", clientFile)].

(** The Kelvin sign U+212A, and a file it finds. *)
Definition kelvinQuery : Wide.ustring := [8490%N].

Definition kFile : FileInfo :=
  {| path := "k.ts"; size := 2; extension := ".ts";
     imports := []; relevanceScore := zero; content := "1;" |}.

Definition kCatalog : Catalog :=
  [("k.ts", kFile); ("src/db/client.ts", clientFile)].

Definition mainFile : FileInfo :=
  {| path := "main.py"; size := 9; extension := ".py";
     imports := ["db"]; relevanceScore := zero;
     content := "import db" |}.

Definition pyCatalog : Catalog :=
  [("main.py", mainFile); ("src/db/client.ts", clientFile)].

Definition authFile : FileInfo :=
  {| path := "auth.ts"; size := 4; extension := ".ts";
     imports := []; relevanceScore := zero; content := "auth" |}.

Definition bigFile : FileInfo :=
  {| path := "src/big.ts"; size := 40; extension := ".ts";
     imports := []; relevanceScore := zero;
     content := "auth auth auth auth auth auth auth auth " |}.

Definition smallFile : FileInfo :=
  {| path := "src/small.ts"; size := 4; extension := ".ts";
     imports := []; relevanceScore := zero; content := "auth" |}.

Definition budgetCatalog : Catalog :=
  [("src/big.ts", bigFile); ("auth.ts", authFile); ("src/small.ts", smallFile)].

Definition tightConfig : ContextConfig :=
  {| maxTokens := Some 5%Z; minFiles := Some 1%Z;
     maxFileSize := None; contextFiles := None |}.

Definition plainFile (name text : string) : string * FileInfo :=
  (name, {| path := name; size := Z.of_nat (String.length text);
            extension := ".c"; imports := []; relevanceScore := zero;
            content := text |}).

Definition idleCatalog : Catalog :=
  [plainFile "a.c" "int a;"; plainFile "b.c" "int b;"; plainFile "c.c" "int c;";
   plainFile "d.c" "int d;"; plainFile "e.c" "int e;"].

Definition floorConfig : ContextConfig :=
  {| maxTokens := Some 2%Z; minFiles := Some 3%Z;
     maxFileSize := None; contextFiles := None |}.

Unset Implicit Arguments.

(* ================================================================== *)
(** * Auxiliary definitions for the further properties *)
(* ================================================================== *)

Fixpoint allChars (p : cls) (s : string) : bool :=
  match s with
  | EmptyString => true
  | String c s' => p c && allChars p s'
  end.

Definition substr (g s : string) : Prop :=
  exists pre post, s = (pre ++ g ++ post)%string.

Definition suffix (t s : string) : Prop := exists pre, s = (pre ++ t)%string.

(** What a match returns: the input left is a suffix of the input, and
    group 1, when it was set by the match, is a non-empty substring of the
    input made of characters of the class of a group of the pattern. *)
Definition captured (r : regex) (s : string) (g : string) : Prop :=
  g <> ""%string /\ substr g s /\ exists p, In (Group p) r /\ allChars p g = true.

Definition tokenChar : cls :=
  fun c => Str.isLower c || Str.isDigit c || Ascii.eqb c "_"%char.

(** Entry of [contextFiles] that names a catalog file. *)
Definition inCatalog (files : Catalog) (c : string) : bool :=
  match JsMap.get c files with Some _ => true | None => false end.

(** A catalog with its scores forgotten. *)
Definition eraseScores (files : Catalog) : Catalog :=
  map (fun e => (fst e, setScore (snd e) zero)) files.

Inductive subseq {A : Type} : list A -> list A -> Prop :=
| subseq_nil : subseq nil nil
| subseq_skip x l1 l2 : subseq l1 l2 -> subseq l1 (x :: l2)
| subseq_take x l1 l2 : subseq l1 l2 -> subseq (x :: l1) (x :: l2).

Definition sumTokens (l : list FileInfo) : Z :=
  fold_right (fun f sum => (fileTokens f + sum)%Z) 0%Z l.

(** Records selected beyond the floor. *)
Definition beyondFloorNonzero (minF : Z) (sel : list FileInfo) : Prop :=
  forall i f, nth_error sel i = Some f -> (minF <= Z.of_nat i)%Z ->
              isZero (relevanceScore f) = false.

Definition roomyConfig : ContextConfig :=
  {| maxTokens := None; minFiles := Some 0%Z;
     maxFileSize := None; contextFiles := None |}.

(** No record is directly followed by one the comparator puts first. *)
Fixpoint noInversion (l : list FileInfo) : Prop :=
  match l with
  | a :: (b :: _) as t => gt0 (byScoreDesc a b) = false /\ noInversion t
  | _ => True
  end.

Definition fileCall := (string * option Z * option string)%type.

Section ScanCalls.
Variable join : string -> string -> string.

Fixpoint dirCalls (dirPath : string) (listing : dirListing) : list fileCall :=
  match listing with
  | Unreadable => []
  | Entries entries => entriesCalls dirPath entries
  end
with entriesCalls (dirPath : string) (entries : fsEntries) : list fileCall :=
  match entries with
  | FsNil => []
  | FsCons name child rest =>
      let fullPath := join dirPath name in
      if shouldIgnore fullPath then entriesCalls dirPath rest
      else
        match child with
        | FsDir listing => dirCalls fullPath listing ++ entriesCalls dirPath rest
        | FsFile stat data => (fullPath, stat, data) :: entriesCalls dirPath rest
        | FsOther => entriesCalls dirPath rest
        end
  end.
End ScanCalls.

(** One call of [processFile]. *)
Definition runCall (relative : string -> string -> string) (rootPath : string)
    (maxFileSize : Z) (files : Catalog) (c : fileCall) : Catalog :=
  processFile relative rootPath files (fst (fst c)) (snd (fst c)) (snd c)
              maxFileSize.

(** What a call of [processFile] stores, if anything. *)
Definition callEvent (relative : string -> string -> string) (rootPath : string)
    (maxFileSize : Z) (c : fileCall) : option (string * FileInfo) :=
  let '(filePath, stat, data) := c in
  let ext := Str.toLowerCase (Path.extname filePath) in
  if negb (Str.mem ext CODE_EXTENSIONS) then None
  else match stat, data with
       | Some statSize, Some content =>
           if (maxFileSize <? statSize)%Z then None
           else Some (relative rootPath filePath,
                      {| path := relative rootPath filePath; size := statSize;
                         extension := ext;
                         imports := extractImports content ext;
                         relevanceScore := zero; content := content |})
       | _, _ => None
       end.

Definition applyEvent (files : Catalog) (e : option (string * FileInfo)) : Catalog :=
  match e with
  | Some (k, v) => JsMap.set k v files
  | None => files
  end.

(** A record as [processFile] builds it, for a path that is not ignored. *)
Definition scannedRecord (relative : string -> string -> string)
    (rootPath : string) (maxFileSize : Z) (k : string) (fi : FileInfo) : Prop :=
  exists filePath,
    shouldIgnore filePath = false
    /\ k = relative rootPath filePath
    /\ path fi = k
    /\ extension fi = Str.toLowerCase (Path.extname filePath)
    /\ In (extension fi) CODE_EXTENSIONS
    /\ (size fi <= maxFileSize)%Z
    /\ relevanceScore fi = zero
    /\ imports fi = extractImports (content fi) (extension fi).

(** Lookup after a run: the last event of the key, else the old value. *)
Definition lastEvent (k : string) (acc : option FileInfo)
    (e : option (string * FileInfo)) : option FileInfo :=
  match e with
  | Some (k', v) => if String.eqb k k' then Some v else acc
  | None => acc
  end.

Definition touches (k : string) (e : option (string * FileInfo)) : bool :=
  match e with Some (k', _) => String.eqb k k' | None => false end.

(** [path.join] of a directory and an entry name, on POSIX, for a
    normalised directory other than the root. *)
Definition posixJoin (dirPath name : string) : string :=
  (dirPath ++ String Str.slash name)%string.

(** [path.relative] from a directory to a path below it. *)
Definition posixRelative (from to : string) : string :=
  Str.drop (S (String.length from)) to.

Definition sampleTree : dirListing :=
  Entries
    (FsCons "src"
       (FsDir (Entries
          (FsCons "a.ts" (FsFile (Some 12%Z) (Some "import x from './b'"))
          (FsCons "builder.ts" (FsFile (Some 3%Z) (Some "x"))
          (FsCons "huge.ts" (FsFile (Some 2000000%Z) (Some "big"))
          (FsCons "locked.ts" (FsFile (Some 3%Z) None) FsNil))))))
    (FsCons "README.md" (FsFile (Some 5%Z) (Some "hello"))
    (FsCons "node_modules" (FsDir Unreadable)
    (FsCons "logo.png" (FsFile (Some 9%Z) (Some "png"))
    (FsCons "tmp" FsOther FsNil))))).


(* ================================================================== *)
(** * Facts on binary64 arithmetic *)
(* ================================================================== *)

Module NumFacts.

Section Rounding.
Variables p e : Z.

Lemma shr_1_nonneg mrs : (0 <= shr_m mrs)%Z -> (0 <= shr_m (shr_1 mrs))%Z.
Proof.
  destruct mrs as [m r s]; simpl.
  destruct m as [|q|q]; simpl; try lia.
  destruct q; simpl; lia.
Qed.

Lemma iter_shr_1_nonneg n :
  forall mrs, (0 <= shr_m mrs)%Z -> (0 <= shr_m (iter_pos shr_1 n mrs))%Z.
Proof.
  induction n as [n IH | n IH |]; intros mrs H; simpl.
  - apply IH, IH, shr_1_nonneg, H.
  - apply IH, IH, H.
  - apply shr_1_nonneg, H.
Qed.

Lemma shr_m_of_loc m l : shr_m (shr_record_of_loc m l) = m.
Proof. destruct l as [|[ | | ]]; reflexivity. Qed.

Lemma shr_fexp_nonneg m ex l :
  (0 <= m)%Z -> (0 <= shr_m (fst (shr_fexp p e m ex l)))%Z.
Proof.
  intros H. unfold shr_fexp, shr.
  destruct (fexp p e (Zdigits2 m + ex) - ex)%Z; simpl;
    try (rewrite shr_m_of_loc; exact H).
  apply iter_shr_1_nonneg. rewrite shr_m_of_loc. exact H.
Qed.

Lemma round_nearest_even_nonneg m l :
  (0 <= m)%Z -> (0 <= round_nearest_even m l)%Z.
Proof.
  intros H. destruct l as [|[ | | ]]; simpl; try lia.
  destruct (Z.even m); lia.
Qed.

Lemma binary_round_aux_nonneg m ex l :
  (0 <= m)%Z -> nonneg (binary_round_aux p e false m ex l).
Proof.
  intros H. unfold binary_round_aux.
  pose proof (shr_fexp_nonneg m ex l H) as H1.
  destruct (shr_fexp p e m ex l) as [mrs' e'] eqn:E1. simpl in H1.
  pose proof (round_nearest_even_nonneg _ (loc_of_shr_record mrs') H1) as H2.
  pose proof (shr_fexp_nonneg _ e' loc_Exact H2) as H3.
  destruct (shr_fexp p e _ e' loc_Exact) as [mrs'' e''] eqn:E2. simpl in H3.
  destruct (shr_m mrs'') as [|q|q]; simpl; try exact I; try lia.
  destruct (e'' <=? e - p)%Z; exact I.
Qed.

Lemma binary_round_nonneg m ex : nonneg (binary_round p e false m ex).
Proof.
  unfold binary_round.
  destruct (shl_align m ex _) as [mz ez].
  apply binary_round_aux_nonneg. lia.
Qed.

Lemma binary_normalize_nonneg z ex :
  (0 <= z)%Z -> nonneg (binary_normalize p e z ex false).
Proof.
  intros H. destruct z as [|q|q]; simpl; try exact I; try lia.
  apply binary_round_nonneg.
Qed.

Lemma SFadd_nonneg x y : nonneg x -> nonneg y -> nonneg (SFadd p e x y).
Proof.
  destruct x as [[|]|[|]| |[|] mx ex]; simpl; try contradiction;
    destruct y as [[|]|[|]| |[|] my ey]; simpl; try contradiction;
    intros _ _; try exact I.
  apply binary_round_nonneg.
Qed.

Lemma SFmul_nonneg x y : nonneg x -> posFinite y -> nonneg (SFmul p e x y).
Proof.
  destruct x as [[|]|[|]| |[|] mx ex]; simpl; try contradiction;
    destruct y as [[|]|[|]| |[|] my ey]; simpl; try contradiction;
    intros _ _; try exact I.
  apply binary_round_aux_nonneg. lia.
Qed.

End Rounding.

Lemma add_nonneg x y : nonneg x -> nonneg y -> nonneg (add x y).
Proof. apply SFadd_nonneg. Qed.

Lemma mul_nonneg x y : nonneg x -> posFinite y -> nonneg (mul x y).
Proof. apply SFmul_nonneg. Qed.

Lemma ofNat_nonneg n : nonneg (ofNat n).
Proof. apply binary_normalize_nonneg. lia. Qed.

Lemma posFinite_nonneg x : posFinite x -> nonneg x.
Proof. destruct x as [| | |[|] m ex]; simpl; tauto. Qed.

(** A non-negative value passes the test [x >= 0]. *)
Lemma nonneg_ge0 x : nonneg x -> ge0 x = true.
Proof. destruct x as [[|]|[|]| |[|] m ex]; simpl; try contradiction; reflexivity. Qed.

(** Among non-negative values only [+0] passes [x === 0]. *)
Lemma nonneg_isZero x : nonneg x -> isZero x = true -> x = zero.
Proof.
  destruct x as [[|]|[|]| |[|] m ex]; simpl; try contradiction;
    intros _ H; try reflexivity; discriminate H.
Qed.

Lemma isZero_not_gt0 x : isZero x = true -> gt0 x = false.
Proof.
  destruct x as [[|]|[|]| |[|] m ex]; simpl; intros H;
    try reflexivity; discriminate H.
Qed.

(** [0 - x] is never positive when [x] is non-negative. *)
Lemma sub_zero_l x : nonneg x -> gt0 (sub zero x) = false.
Proof. destruct x as [[|]|[|]| |[|] m ex]; simpl; try contradiction; reflexivity. Qed.

(** [x - 0] is [x] for the non-negative [x]. *)
Lemma sub_zero_r x : nonneg x -> sub x zero = x.
Proof. destruct x as [[|]|[|]| |[|] m ex]; simpl; try contradiction; reflexivity. Qed.

Lemma nonneg_not_gt0 x : nonneg x -> gt0 x = false -> x = zero.
Proof.
  destruct x as [[|]|[|]| |[|] m ex]; simpl; try contradiction;
    intros _ H; try reflexivity; discriminate H.
Qed.

(** [x - x] is never positive. *)
Lemma sub_diag x : gt0 (sub x x) = false.
Proof.
  destruct x as [[|]|[|]| |[|] m ex]; try reflexivity;
    unfold sub, SFsub; rewrite Z.min_id; simpl;
    rewrite Z.pos_sub_diag; reflexivity.
Qed.

End NumFacts.

(* ================================================================== *)
(** * Facts on strings, sets and maps *)
(* ================================================================== *)

Lemma mem_In x l : Str.mem x l = true <-> In x l.
Proof.
  unfold Str.mem. rewrite existsb_exists. split.
  - intros [y [Hy E]]. apply String.eqb_eq in E. subst. exact Hy.
  - intros H. exists x. split; [exact H | apply String.eqb_refl].
Qed.

Lemma mem_not_In x l : Str.mem x l = false <-> ~ In x l.
Proof.
  rewrite <- mem_In. destruct (Str.mem x l); split; intro H;
    try reflexivity; try discriminate; try (intro; discriminate).
  exfalso. apply H. reflexivity.
Qed.

Lemma fold_left_pointwise (A B : Type) (f g : A -> B -> A) l :
  (forall a b, f a b = g a b) ->
  forall a, fold_left f l a = fold_left g l a.
Proof.
  intros E. induction l as [|b l IH]; intros a; simpl.
  - reflexivity.
  - rewrite E. apply IH.
Qed.

Section MapFacts.
Variable V : Type.
Implicit Types (m : JsMap.t V) (k : string) (v : V).

Lemma set_fresh k v m :
  ~ In k (JsMap.keys m) -> JsMap.set k v m = m ++ [(k, v)].
Proof.
  induction m as [|[k' v'] m IH]; simpl; intros H.
  - reflexivity.
  - destruct (String.eqb_spec k k') as [->|N].
    + exfalso. apply H. left. reflexivity.
    + rewrite IH; [reflexivity | tauto].
Qed.

Lemma set_middle k v v0 m1 m2 :
  ~ In k (JsMap.keys m1) ->
  JsMap.set k v (m1 ++ (k, v0) :: m2) = m1 ++ (k, v) :: m2.
Proof.
  induction m1 as [|[k' v'] m1 IH]; simpl; intros H.
  - rewrite String.eqb_refl. reflexivity.
  - destruct (String.eqb_spec k k') as [->|N].
    + exfalso. apply H. left. reflexivity.
    + rewrite IH; [reflexivity | tauto].
Qed.

Lemma get_In k v m : JsMap.wf m -> In (k, v) m -> JsMap.get k m = Some v.
Proof.
  unfold JsMap.wf. induction m as [|[k' v'] m IH]; simpl; intros W H.
  - contradiction.
  - inversion W as [|? ? Hn W']; subst.
    destruct H as [E|H].
    + inversion E; subst. rewrite String.eqb_refl. reflexivity.
    + destruct (String.eqb_spec k k') as [->|N].
      * exfalso. apply Hn. change k' with (fst (k', v)).
        apply in_map. exact H.
      * apply IH; assumption.
Qed.

Lemma get_Some_In k v m : JsMap.get k m = Some v -> In (k, v) m.
Proof.
  induction m as [|[k' v'] m IH]; simpl; intros H.
  - discriminate.
  - destruct (String.eqb_spec k k') as [->|N].
    + inversion H; subst. left. reflexivity.
    + right. apply IH, H.
Qed.

End MapFacts.

(* ================================================================== *)
(** * Facts on substrings and on the matcher *)
(* ================================================================== *)

(** [includes] is the substring test. *)
Lemma startsWith_app s p :
  Str.startsWith s p = true <-> exists post, s = (p ++ post)%string.
Proof.
  revert s. induction p as [|a p IH]; intros s; simpl.
  - split; [intros _; exists s; reflexivity | reflexivity].
  - destruct s as [|b s]; simpl.
    + split; [discriminate | intros [post E]; discriminate E].
    + rewrite andb_true_iff, IH. split.
      * intros [E [post ->]]. apply Ascii.eqb_eq in E. subst. exists post. reflexivity.
      * intros [post E]. inversion E; subst. split; [apply Ascii.eqb_refl | exists post; reflexivity].
Qed.

Lemma includes_substring s sub :
  Str.includes s sub = true <-> exists pre post, s = (pre ++ sub ++ post)%string.
Proof.
  induction s as [|c s IH]; simpl.
  - rewrite orb_false_r, startsWith_app. split.
    + intros [post E]. exists "", post. exact E.
    + intros [pre [post E]]. destruct pre; simpl in E; [exists post; exact E | discriminate E].
  - rewrite orb_true_iff, startsWith_app, IH. split.
    + intros [[post E] | [pre [post E]]].
      * exists "", post. exact E.
      * exists (String c pre), post. simpl. rewrite E. reflexivity.
    + intros [pre [post E]]. destruct pre as [|a pre]; simpl in E.
      * left. exists post. exact E.
      * right. inversion E; subst. exists pre, post. reflexivity.
Qed.

Lemma drop_length n : forall s, String.length (Str.drop n s) = String.length s - n.
Proof.
  induction n as [|n IH]; intros [|c s]; simpl; try reflexivity; try lia.
  apply IH.
Qed.

Lemma span_length p s : span p s <= String.length s.
Proof.
  induction s as [|c s IH]; simpl; [lia|]. destruct (p c); lia.
Qed.

Lemma tryCounts_Some (R : Type) (k : nat -> option R) lo : forall n r,
  tryCounts k lo n = Some r -> exists m, lo <= m <= n /\ k m = Some r.
Proof.
  induction n as [|n IH]; intros r; simpl.
  - destruct lo; simpl; [|discriminate].
    destruct (k 0) eqn:E; [|discriminate].
    intros H; inversion H; subst. exists 0. split; [lia | exact E].
  - destruct (Nat.ltb_spec (S n) lo) as [L|L]; [discriminate|].
    destruct (k (S n)) eqn:E.
    + intros H; inversion H; subst. exists (S n). split; [lia | exact E].
    + intros H. destruct (IH r H) as [m [B Km]]. exists m. split; [lia | exact Km].
Qed.

Lemma startsWith_length p : forall s,
  Str.startsWith s p = true -> String.length p <= String.length s.
Proof.
  induction p as [|a p IH]; intros [|b s]; simpl; try lia; try discriminate.
  intros H. apply andb_true_iff in H. destruct H as [_ H].
  apply IH in H. lia.
Qed.

Lemma matchHere_length r : forall s cap c rest,
  matchHere r s cap = Some (c, rest) -> String.length rest <= String.length s.
Proof.
  induction r as [|nd r IH]; intros s cap c rest; simpl.
  - intros H; inversion H; subst. lia.
  - destruct nd as [l|p|p|p|p].
    + destruct (Str.startsWith s l); [|discriminate].
      intros H. apply IH in H. rewrite drop_length in H. lia.
    + destruct s as [|a s]; [discriminate|]. destruct (p a); [|discriminate].
      intros H. apply IH in H. simpl. lia.
    + intros H. apply tryCounts_Some in H. destruct H as [m [_ H]].
      apply IH in H. rewrite drop_length in H. lia.
    + intros H. apply tryCounts_Some in H. destruct H as [m [_ H]].
      apply IH in H. rewrite drop_length in H. lia.
    + intros H. apply tryCounts_Some in H. destruct H as [m [_ H]].
      apply IH in H. rewrite drop_length in H. lia.
Qed.

Lemma matchHere_consumes r s cap c rest :
  consuming r = true ->
  matchHere r s cap = Some (c, rest) -> String.length rest < String.length s.
Proof.
  destruct r as [|nd r]; [discriminate|].
  destruct nd as [l|p|p|p|p]; simpl; intros C.
  - destruct l as [|a l]; [discriminate|].
    destruct (Str.startsWith s (String a l)) eqn:E; [|discriminate].
    intros H. apply matchHere_length in H. rewrite drop_length in H.
    apply startsWith_length in E. simpl in *. lia.
  - destruct s as [|a s]; [discriminate|]. destruct (p a); [|discriminate].
    intros H. apply matchHere_length in H. simpl. lia.
  - intros H. apply tryCounts_Some in H. destruct H as [m [B H]].
    apply matchHere_length in H. rewrite drop_length in H.
    pose proof (span_length p s). lia.
  - discriminate.
  - intros H. apply tryCounts_Some in H. destruct H as [m [B H]].
    apply matchHere_length in H. rewrite drop_length in H.
    pose proof (span_length p s). lia.
Qed.

Lemma exec_consumes r : consuming r = true -> forall s c rest,
  exec r s = Some (c, rest) -> String.length rest < String.length s.
Proof.
  intros C. induction s as [|a s IH]; intros c rest; simpl.
  - destruct (matchHere r "" None) as [[c' rest']|] eqn:E; [|discriminate].
    intros H; inversion H; subst. apply (matchHere_consumes _ _ _ _ _ C E).
  - destruct (matchHere r (String a s) None) as [[c' rest']|] eqn:E.
    + intros H; inversion H; subst. apply (matchHere_consumes _ _ _ _ _ C E).
    + intros H. apply IH in H. lia.
Qed.

Lemma execLoop_fuel r : consuming r = true -> forall fuel1 fuel2 s acc,
  String.length s < fuel1 -> String.length s < fuel2 ->
  execLoop fuel1 r s acc = execLoop fuel2 r s acc.
Proof.
  intros C. induction fuel1 as [|fuel1 IH]; intros fuel2 s acc L1 L2; [lia|].
  destruct fuel2 as [|fuel2]; [lia|]. simpl.
  destruct (exec r s) as [[c rest]|] eqn:E; [|reflexivity].
  apply (exec_consumes r C) in E.
  destruct c as [g|]; [destruct (Str.isEmpty g)|]; apply IH; lia.
Qed.

Lemma patterns_consuming extension patterns :
  patternsFor extension = Some patterns -> forallb consuming patterns = true.
Proof.
  unfold patternsFor.
  repeat match goal with
  | |- context [if ?b then _ else _] => destruct b
  end; intros H; inversion H; reflexivity.
Qed.

Lemma extractImports_fuel content extension patterns fuel :
  patternsFor extension = Some patterns ->
  String.length content < fuel ->
  fold_left (fun imports pattern => execLoop fuel pattern content imports)
            patterns JsSet.empty
  = extractImports content extension.
Proof.
  intros P L. unfold extractImports. rewrite P.
  apply patterns_consuming in P.
  generalize JsSet.empty as acc.
  induction patterns as [|r rs IH]; intros acc; simpl.
  - reflexivity.
  - simpl in P. apply andb_true_iff in P. destruct P as [C P].
    rewrite (execLoop_fuel r C fuel (S (String.length content)) content acc)
      by lia.
    apply IH, P.
Qed.

Lemma matchAll_fuel r : consuming r = true -> forall fuel1 fuel2 s,
  String.length s < fuel1 -> String.length s < fuel2 ->
  matchAll fuel1 r s = matchAll fuel2 r s.
Proof.
  intros C. induction fuel1 as [|fuel1 IH]; intros fuel2 s L1 L2; [lia|].
  destruct fuel2 as [|fuel2]; [lia|]. simpl.
  destruct (exec r s) as [[c rest]|] eqn:E; [|reflexivity].
  apply (exec_consumes r C) in E.
  destruct c as [g|]; [|reflexivity].
  f_equal. apply IH; lia.
Qed.

(* ================================================================== *)
(** * The scoring pass as a map over the catalog *)
(* ================================================================== *)

Lemma importsOf_get fs1 : forall fs2 k,
  importsOf fs1 = importsOf fs2 ->
  option_map imports (JsMap.get k fs1) = option_map imports (JsMap.get k fs2).
Proof.
  induction fs1 as [|[k1 v1] fs1 IH]; intros [|[k2 v2] fs2] k E;
    simpl in *; try discriminate; try reflexivity.
  inversion E; subst.
  destruct (String.eqb k k2); simpl.
  - congruence.
  - apply IH. assumption.
Qed.

Lemma reachStep_ext fs1 fs2 p s c :
  importsOf fs1 = importsOf fs2 -> reachStep fs1 p s c = reachStep fs2 p s c.
Proof.
  intros E. unfold reachStep.
  pose proof (importsOf_get fs1 fs2 c E) as H.
  destruct (JsMap.get c fs1), (JsMap.get c fs2); simpl in H;
    try discriminate; try reflexivity.
  inversion H as [H']. rewrite H'. reflexivity.
Qed.

(** The score of a file does not depend on the scores already written. *)
Lemma scoreFile_ext fs1 fs2 qw ctx p fi :
  importsOf fs1 = importsOf fs2 ->
  scoreFile fs1 qw ctx p fi = scoreFile fs2 qw ctx p fi.
Proof.
  intros E. unfold scoreFile, additive, reachTerm.
  destruct ctx as [cf|]; [|reflexivity].
  do 2 f_equal.
  apply fold_left_pointwise. intros a b. apply reachStep_ext, E.
Qed.

Lemma importsOf_rescore files qw ctx l :
  importsOf (map (rescore files qw ctx) l) = importsOf l.
Proof.
  unfold importsOf. rewrite map_map. apply map_ext. intros [k v]. reflexivity.
Qed.

Lemma importsOf_app l1 l2 : importsOf (l1 ++ l2) = importsOf l1 ++ importsOf l2.
Proof. apply map_app. Qed.

Lemma keys_rescore files qw ctx l :
  JsMap.keys (map (rescore files qw ctx) l) = JsMap.keys l.
Proof.
  unfold JsMap.keys. rewrite map_map. apply map_ext. intros [k v]. reflexivity.
Qed.

Lemma keys_scoreEntry files qw ctx l :
  JsMap.keys (map (scoreEntry files qw ctx) l) = JsMap.keys l.
Proof.
  unfold JsMap.keys. rewrite map_map. apply map_ext. intros [k v]. reflexivity.
Qed.

Lemma relevance_fold files qw ctx : forall todo done,
  JsMap.wf (done ++ todo) ->
  importsOf (done ++ todo) = importsOf files ->
  fold_left (relevanceStep qw ctx) todo
    (map (rescore files qw ctx) done ++ todo,
     map (scoreEntry files qw ctx) done)
  = (map (rescore files qw ctx) (done ++ todo),
     map (scoreEntry files qw ctx) (done ++ todo)).
Proof.
  induction todo as [|[p fi] todo IH]; intros done W E; simpl.
  - rewrite !app_nil_r. reflexivity.
  - assert (Hp : ~ In p (JsMap.keys done)).
    { unfold JsMap.wf, JsMap.keys in W. rewrite map_app in W. simpl in W.
      apply NoDup_remove_2 in W. intro H. apply W. apply in_or_app. left. exact H. }
    assert (Es : scoreFile (map (rescore files qw ctx) done ++ (p, fi) :: todo)
                           qw ctx p fi
                 = scoreFile files qw ctx p fi).
    { apply scoreFile_ext. rewrite <- E, !importsOf_app, importsOf_rescore.
      reflexivity. }
    rewrite Es.
    rewrite set_middle by (rewrite keys_rescore; exact Hp).
    rewrite set_fresh by (rewrite keys_scoreEntry; exact Hp).
    specialize (IH (done ++ [(p, fi)])).
    rewrite <- !app_assoc in IH. simpl in IH.
    rewrite !map_app in IH. simpl in IH. rewrite <- !app_assoc in IH. simpl in IH.
    rewrite !map_app. simpl.
    apply IH; assumption.
Qed.

(** On a well-formed catalog the pass rewrites every record's score in
    place and returns one score per path, in catalog order. *)
Lemma calculateRelevance_map files query ctx :
  JsMap.wf files ->
  calculateRelevance files query ctx
  = (map (rescore files (tokenize query) ctx) files,
     map (scoreEntry files (tokenize query) ctx) files).
Proof.
  intros W. unfold calculateRelevance.
  apply (relevance_fold files (tokenize query) ctx files [] W eq_refl).
Qed.

(* ================================================================== *)
(** * Import extraction: properties *)
(* ================================================================== *)

(** C9. For every content and every extension that is none of the case
    labels of the [switch], [extractImports] returns the empty set (the
    [default] branch returns the fresh set; nothing is thrown). *)
Theorem extractImports_unsupported (content extension : string) :
  ~ In extension configuredExtensions ->
  extractImports content extension = JsSet.empty.
Proof.
  intros H. unfold extractImports, patternsFor.
  unfold configuredExtensions in H.
  repeat rewrite in_app_iff in H.
  repeat match goal with
  | |- context [Str.mem extension ?l] =>
      let E := fresh "E" in
      destruct (Str.mem extension l) eqn:E;
      [ apply mem_In in E; exfalso; apply H; tauto | clear E ]
  end.
  reflexivity.
Qed.

Lemma extractImports_unsupported_witness :
  ~ In ".md" configuredExtensions /\
  extractImports "import os" ".md" = JsSet.empty.
Proof.
  assert (H : ~ In ".md" configuredExtensions)
    by (apply mem_not_In; reflexivity).
  split; [exact H | exact (extractImports_unsupported "import os" ".md" H)].
Defined.

(** C2, as the code has it.  On the content
    ["import os\nfrom collections import OrderedDict"] with extension
    [.py], [extractImports] returns the three targets [collections], [os]
    and [OrderedDict], inserted in this order: the second pattern
    [import\s+([.\w]+)] also matches inside the [from ... import] line. *)
Theorem extractImports_python_example :
  extractImports pyExample ".py" = ["collections"; "os"; "OrderedDict"].
Proof. vm_compute. reflexivity. Qed.

(** C2 as stated fails: the result is not the set {os, collections}. *)
Lemma extractImports_python_not_two :
  ~ (forall x, In x (extractImports pyExample ".py")
               <-> In x ["os"; "collections"]).
Proof.
  intros H.
  assert (I3 : In "OrderedDict" (extractImports pyExample ".py")).
  { vm_compute. tauto. }
  apply H in I3. simpl in I3.
  destruct I3 as [E|[E|[]]]; discriminate E.
Qed.

(* ================================================================== *)
(** * Relevance scoring: properties *)
(* ================================================================== *)

(** Well-formedness of a concrete catalog. *)
Ltac solve_wf :=
  unfold JsMap.wf; simpl;
  repeat (constructor; [simpl; intuition discriminate|]);
  constructor.

Lemma iter_shift (A : Type) (f : A -> A) n x :
  Nat.iter n f (f x) = f (Nat.iter n f x).
Proof. induction n as [|n IH]; simpl; [reflexivity | rewrite IH; reflexivity]. Qed.

Lemma reachStep_reaches files p score c :
  reachStep files p score c = if reaches files p c then add8 score else score.
Proof.
  unfold reachStep, reaches.
  destruct (JsMap.get c files) as [info|]; reflexivity.
Qed.

Lemma reach_fold files p : forall ctxFiles score,
  fold_left (reachStep files p) ctxFiles score
  = Nat.iter (reachCount files p ctxFiles) add8 score.
Proof.
  unfold reachCount.
  induction ctxFiles as [|c l IH]; intros score; simpl.
  - reflexivity.
  - rewrite IH, reachStep_reaches.
    destruct (reaches files p c); [|reflexivity].
    simpl. apply iter_shift.
Qed.

Lemma additive_reach files qw contextFiles p fi :
  additive files qw (Some contextFiles) p fi
  = Nat.iter (reachCount files p contextFiles) add8
      (beforeReach qw (Some contextFiles) p fi).
Proof. unfold additive, reachTerm. apply reach_fold. Qed.

(** The score stored for a catalog entry is the one of the loop body. *)
Lemma scores_get files query ctx p fi :
  JsMap.wf files -> In (p, fi) files ->
  JsMap.get p (snd (calculateRelevance files query ctx))
  = Some (scoreFile files (tokenize query) ctx p fi).
Proof.
  intros W H. rewrite calculateRelevance_map by exact W. simpl.
  apply get_In.
  - unfold JsMap.wf. rewrite keys_scoreEntry. exact W.
  - apply (in_map (scoreEntry files (tokenize query) ctx)) in H. exact H.
Qed.

(** C1 as stated fails.  With the seed [api.ts] importing ["./db"] listed
    in [contextFiles], the score of [src/db/client.ts] is the same as
    without any context file: ["./db"] is not a substring of that path
    (the character before [/db] is [c]), so no [+8] is added. *)
Lemma seed_example_no_boost :
  imports apiFile = ["./db"] /\
  Str.includes "src/db/client.ts" "./db" = false /\
  JsMap.get "src/db/client.ts"
    (snd (calculateRelevance seedCatalog "" (Some ["api.ts"]))) = Some zero /\
  JsMap.get "src/db/client.ts"
    (snd (calculateRelevance seedCatalog "" None)) = Some zero /\
  add zero lit8 <> zero.
Proof.
  repeat split; try (vm_compute; reflexivity).
  vm_compute. discriminate.
Qed.

(** C1, amended.  The score of a file is the entry-point term applied to
    the decay of: the score before the loop over [contextFiles], to which
    [8] is added once per entry of [contextFiles] that is in the catalog
    and has an import target that is a substring of the file's relative
    path.  A seed whose only target is ["./db"] does not reach
    [src/db/client.ts], the substring test being literal. *)
Theorem reach_boost_per_seed (files : Catalog) (query : string)
    (contextFiles : list string) (p : string) (fi : FileInfo) :
  JsMap.wf files -> In (p, fi) files ->
  JsMap.get p (snd (calculateRelevance files query (Some contextFiles)))
  = Some (entryTerm (Str.toLowerCase (Str.basename p))
            (decay fi (Str.toLowerCase p)
               (Nat.iter (reachCount files p contextFiles) add8
                  (beforeReach (tokenize query) (Some contextFiles) p fi))))
  /\ (forall c info, JsMap.get c files = Some info ->
        imports info = ["./db"] ->
        reaches files "src/db/client.ts" c = false).
Proof.
  intros W H. split.
  - rewrite (scores_get files query (Some contextFiles) p fi W H).
    unfold scoreFile. rewrite additive_reach. reflexivity.
  - intros c info G I. unfold reaches. rewrite G, I. reflexivity.
Qed.

Lemma reach_boost_per_seed_witness :
  reachCount seedCatalog' "src/db/client.ts" ["api.ts"] = 1 /\
  JsMap.get "src/db/client.ts"
    (snd (calculateRelevance seedCatalog' "" (Some ["api.ts"])))
  = Some (entryTerm (Str.toLowerCase (Str.basename "src/db/client.ts"))
            (decay clientFile (Str.toLowerCase "src/db/client.ts")
               (Nat.iter (reachCount seedCatalog' "src/db/client.ts" ["api.ts"])
                  add8
                  (beforeReach (tokenize "") (Some ["api.ts"])
                     "src/db/client.ts" clientFile)))).
Proof.
  split; [reflexivity|].
  refine (proj1 (reach_boost_per_seed seedCatalog' "" ["api.ts"]
                   "src/db/client.ts" clientFile _ _)).
  - solve_wf.
  - simpl. tauto.
Defined.

(** ** Category decay *)

Lemma decay_cases fi pl a :
  decay fi pl a = a \/ decay fi pl a = mul a lit0_5
  \/ decay fi pl a = mul a lit0_7 \/ decay fi pl a = mul a lit0_8.
Proof.
  unfold decay.
  destruct (Str.mem (extension fi) [".md"; ".txt"]); [tauto|].
  destruct (Str.includes pl "test" || Str.includes pl "spec"); [tauto|].
  destruct (Str.includes pl "config" || Str.mem (extension fi) _); tauto.
Qed.

(** C5. The stored score of a catalog file is the entry-point term applied
    to the decayed additive score, where the decay is chosen by the first
    test that succeeds, in this order: extension [.md] or [.txt] (times
    0.5); else path containing [test] or [spec] (times 0.7); else path
    containing [config] or extension [.json], [.yaml], [.yml] or [.toml]
    (times 0.8); else none.  The file [docs/config/settings.md] with
    extension [.md] gets its additive score times 0.5 and nothing else. *)
Theorem decay_precedence (files : Catalog) (query : string)
    (ctx : option (list string)) (p : string) (fi : FileInfo) :
  JsMap.wf files -> In (p, fi) files ->
  let a := additive files (tokenize query) ctx p fi in
  let pl := Str.toLowerCase p in
  let entry := entryTerm (Str.toLowerCase (Str.basename p)) in
  let stored := JsMap.get p (snd (calculateRelevance files query ctx)) in
  let docs := In (extension fi) [".md"; ".txt"] in
  let tests := Str.includes pl "test" = true \/ Str.includes pl "spec" = true in
  let config := Str.includes pl "config" = true
                \/ In (extension fi) [".json"; ".yaml"; ".yml"; ".toml"] in
  (docs -> stored = Some (entry (mul a lit0_5)))
  /\ (~ docs -> tests -> stored = Some (entry (mul a lit0_7)))
  /\ (~ docs -> ~ tests -> config -> stored = Some (entry (mul a lit0_8)))
  /\ (~ docs -> ~ tests -> ~ config -> stored = Some (entry a))
  /\ (p = "docs/config/settings.md" -> extension fi = ".md" ->
      stored = Some (mul a lit0_5)).
Proof.
  intros W H a pl entry stored docs tests config.
  assert (S0 : stored = Some (entry (decay fi pl a)))
    by (apply scores_get; assumption).
  assert (D : docs -> decay fi pl a = mul a lit0_5).
  { intros Hd. unfold decay. apply mem_In in Hd. rewrite Hd. reflexivity. }
  assert (ND : ~ docs -> Str.mem (extension fi) [".md"; ".txt"] = false)
    by (intros Hd; apply mem_not_In; exact Hd).
  assert (NT : ~ tests ->
               Str.includes pl "test" || Str.includes pl "spec" = false).
  { intros Ht. unfold tests in Ht.
    destruct (Str.includes pl "test"), (Str.includes pl "spec");
      try reflexivity; exfalso; apply Ht; tauto. }
  repeat split.
  - intros Hd. rewrite S0, (D Hd). reflexivity.
  - intros Hd Ht. rewrite S0. unfold decay. rewrite (ND Hd).
    destruct Ht as [Ht|Ht]; rewrite Ht; simpl; rewrite ?orb_true_r; reflexivity.
  - intros Hd Ht Hc. rewrite S0. unfold decay. rewrite (ND Hd), (NT Ht).
    destruct Hc as [Hc|Hc].
    + rewrite Hc. reflexivity.
    + apply mem_In in Hc. rewrite Hc, orb_true_r. reflexivity.
  - intros Hd Ht Hc. rewrite S0. unfold decay. rewrite (ND Hd), (NT Ht).
    unfold config in Hc.
    destruct (Str.includes pl "config") eqn:E1; [exfalso; apply Hc; tauto|].
    destruct (Str.mem (extension fi) [".json"; ".yaml"; ".yml"; ".toml"]) eqn:E2.
    + exfalso. apply Hc. right. apply mem_In. exact E2.
    + reflexivity.
  - intros Hp He. rewrite S0. unfold entry, docs in *. subst p.
    rewrite D by (rewrite He; simpl; tauto). reflexivity.
Qed.

Lemma decay_precedence_witness :
  JsMap.wf docsCatalog /\
  In ("docs/config/settings.md", settingsFile) docsCatalog /\
  JsMap.get "docs/config/settings.md"
    (snd (calculateRelevance docsCatalog "authentication" None))
  = Some (mul (additive docsCatalog (tokenize "authentication") None
                 "docs/config/settings.md" settingsFile) lit0_5).
Proof.
  assert (W : JsMap.wf docsCatalog) by solve_wf.
  assert (H : In ("docs/config/settings.md", settingsFile) docsCatalog)
    by (simpl; tauto).
  split; [exact W|]. split; [exact H|].
  exact (proj2 (proj2 (proj2 (proj2
    (decay_precedence docsCatalog "authentication" None
       "docs/config/settings.md" settingsFile W H)))) eq_refl eq_refl).
Defined.

(** ** Entry-point bonus *)

Lemma entryPointNames_isEntryPoint name :
  In name entryPointNames -> isEntryPoint (Str.toLowerCase name) = true.
Proof.
  unfold entryPointNames. simpl.
  intros [E|[E|[E|[]]]]; subst name; reflexivity.
Qed.

(** C6. For a catalog file whose base name is [package.json], [main.py]
    or [index.ts], the stored score is the decayed additive score plus 5:
    the decay (identity, or times 0.5, 0.7 or 0.8) is applied to the
    additive score only and the bonus is added afterwards. *)
Theorem entry_bonus_after_decay (files : Catalog) (query : string)
    (ctx : option (list string)) (p : string) (fi : FileInfo) :
  JsMap.wf files -> In (p, fi) files ->
  In (Str.basename p) entryPointNames ->
  let a := additive files (tokenize query) ctx p fi in
  let d := decay fi (Str.toLowerCase p) a in
  JsMap.get p (snd (calculateRelevance files query ctx)) = Some (add d lit5)
  /\ (d = a \/ d = mul a lit0_5 \/ d = mul a lit0_7 \/ d = mul a lit0_8).
Proof.
  intros W H E a d. split.
  - rewrite (scores_get files query ctx p fi W H).
    unfold scoreFile, entryTerm.
    rewrite (entryPointNames_isEntryPoint _ E). reflexivity.
  - apply decay_cases.
Qed.

Lemma entry_bonus_after_decay_witness :
  In (Str.basename "web/package.json") entryPointNames /\
  JsMap.get "web/package.json"
    (snd (calculateRelevance webCatalog "client" None))
  = Some (add (decay packageFile (Str.toLowerCase "web/package.json")
                 (additive webCatalog (tokenize "client") None
                    "web/package.json" packageFile)) lit5).
Proof.
  assert (W : JsMap.wf webCatalog) by solve_wf.
  assert (H : In ("web/package.json", packageFile) webCatalog)
    by (simpl; tauto).
  assert (E : In (Str.basename "web/package.json") entryPointNames)
    by (simpl; tauto).
  split; [exact E|].
  exact (proj1 (entry_bonus_after_decay webCatalog "client" None
                  "web/package.json" packageFile W H E)).
Defined.

(** ** Queries without word characters *)

Lemma exec_word_none s : anyChar word s = false -> exec wordPattern s = None.
Proof.
  induction s as [|c s IH]; simpl; intros H.
  - reflexivity.
  - apply orb_false_iff in H. destruct H as [Hc Hs].
    rewrite Hc. simpl. apply IH, Hs.
Qed.

Lemma seedTerm_zero ctx p :
  seedTerm ctx p zero = if Str.mem p (orDefault ctx []) then lit15 else zero.
Proof.
  unfold seedTerm. destruct ctx as [cf|]; simpl; [|reflexivity].
  destruct (Str.mem p cf); reflexivity.
Qed.

Lemma reachTerm_iter files ctx p score :
  reachTerm files ctx p score
  = Nat.iter (reachCount files p (orDefault ctx [])) add8 score.
Proof.
  unfold reachTerm. destruct ctx as [cf|]; simpl.
  - apply reach_fold.
  - reflexivity.
Qed.

(** The 8-bit code units are the wide ones below U+0100. *)
Lemma isWord_N_of_ascii c : Wide.isWord (N_of_ascii c) = word c.
Proof. destruct c as [[] [] [] [] [] [] [] []]; reflexivity. Qed.

Lemma narrowUnit_N_of_ascii c : Wide.narrowUnit (N_of_ascii c) = c.
Proof. destruct c as [[] [] [] [] [] [] [] []]; reflexivity. Qed.

Lemma lowerUnit_N_of_ascii c :
  Wide.lowerUnit (N_of_ascii c) = [N_of_ascii (Str.lowerChar c)].
Proof. destruct c as [[] [] [] [] [] [] [] []]; reflexivity. Qed.

Lemma word_narrowUnit u : word (Wide.narrowUnit u) = Wide.isWord u.
Proof.
  unfold Wide.narrowUnit. destruct (N.ltb_spec u 256) as [L|L].
  - rewrite <- (N_ascii_embedding u L) at 2. symmetry. apply isWord_N_of_ascii.
  - unfold Wide.isWord, Wide.between.
    repeat match goal with
    | |- context [(?a <=? ?b)%N] => destruct (N.leb_spec a b)
    | |- context [(?a =? ?b)%N] => destruct (N.eqb_spec a b)
    end; try lia; reflexivity.
Qed.

Lemma anyChar_narrow s :
  anyChar word (Wide.narrow s) = existsb Wide.isWord s.
Proof.
  induction s as [|u s IH]; simpl; [reflexivity|].
  rewrite word_narrowUnit, IH. reflexivity.
Qed.

Lemma tokenizeW_no_word query :
  existsb Wide.isWord (Wide.toLowerCase query) = false -> tokenizeW query = [].
Proof.
  intros H. unfold tokenizeW. cbn [matchAll].
  rewrite exec_word_none by (rewrite anyChar_narrow; exact H). reflexivity.
Qed.

Lemma toLowerCase_widen s :
  Wide.toLowerCase (Wide.widen s) = Wide.widen (Str.toLowerCase s).
Proof.
  induction s as [|c s IH]; simpl; [reflexivity|].
  rewrite lowerUnit_N_of_ascii. simpl. f_equal. exact IH.
Qed.

Lemma narrow_widen s : Wide.narrow (Wide.widen s) = s.
Proof.
  induction s as [|c s IH]; simpl; [reflexivity|].
  rewrite narrowUnit_N_of_ascii, IH. reflexivity.
Qed.

Lemma length_widen s : List.length (Wide.widen s) = String.length s.
Proof. induction s as [|c s IH]; simpl; congruence. Qed.

Lemma tokenizeW_widen query : tokenizeW (Wide.widen query) = tokenize query.
Proof.
  unfold tokenizeW, tokenize.
  rewrite toLowerCase_widen, narrow_widen, length_widen. reflexivity.
Qed.

(** [calculateRelevance] is [calculateRelevanceW] on the queries whose
    code units are all below U+0100. *)
Lemma calculateRelevanceW_widen files query ctx :
  calculateRelevanceW files (Wide.widen query) ctx
  = calculateRelevance files query ctx.
Proof.
  unfold calculateRelevanceW, calculateRelevance.
  rewrite tokenizeW_widen. reflexivity.
Qed.

Lemma calculateRelevanceW_map files query ctx :
  JsMap.wf files ->
  calculateRelevanceW files query ctx
  = (map (rescore files (tokenizeW query) ctx) files,
     map (scoreEntry files (tokenizeW query) ctx) files).
Proof.
  intros W. unfold calculateRelevanceW.
  apply (relevance_fold files (tokenizeW query) ctx files [] W eq_refl).
Qed.

Lemma scoresW_get files query ctx p fi :
  JsMap.wf files -> In (p, fi) files ->
  JsMap.get p (snd (calculateRelevanceW files query ctx))
  = Some (scoreFile files (tokenizeW query) ctx p fi).
Proof.
  intros W H. rewrite calculateRelevanceW_map by exact W. simpl.
  apply get_In.
  - unfold JsMap.wf. rewrite keys_scoreEntry. exact W.
  - apply (in_map (scoreEntry files (tokenizeW query) ctx)) in H. exact H.
Qed.

(** C7 as stated fails.  The query made of the Kelvin sign U+212A holds
    no word character, but its lower case is [k]: the token set is
    {k}, and the file [k.ts], which is no context file, is reached by no
    seed and has no entry-point name, scores 15 (file name 10, path 5)
    where the claim gives 0. *)
Lemma kelvin_query_has_token :
  JsMap.wf kCatalog /\ In ("k.ts", kFile) kCatalog /\
  existsb Wide.isWord kelvinQuery = false /\
  tokenizeW kelvinQuery = ["k"] /\
  JsMap.get "k.ts" (snd (calculateRelevanceW kCatalog kelvinQuery None))
  = Some lit15 /\
  entryTerm (Str.toLowerCase (Str.basename "k.ts"))
    (decay kFile (Str.toLowerCase "k.ts")
       (Nat.iter (reachCount kCatalog "k.ts" []) add8
          (if Str.mem "k.ts" [] then lit15 else zero))) = zero /\
  lit15 <> zero.
Proof.
  split; [solve_wf|]. split; [simpl; tauto|].
  repeat split; try (vm_compute; reflexivity).
  discriminate.
Qed.

(** C7, amended.  For a query whose lower-cased form holds no word
    character (the empty query in particular) the token set is empty, the
    file-name, path and content terms leave the score at 0, and the
    stored score of a catalog file is the entry-point term applied to the
    decay of: 15 if the path is in [contextFiles] (else 0), plus 8 for
    each reaching seed entry. *)
Theorem wordless_query_scores (files : Catalog) (query : Wide.ustring)
    (ctx : option (list string)) (p : string) (fi : FileInfo) :
  JsMap.wf files -> In (p, fi) files ->
  existsb Wide.isWord (Wide.toLowerCase query) = false ->
  let qw := tokenizeW query in
  let filename := Str.toLowerCase (Str.basename p) in
  let pl := Str.toLowerCase p in
  let cf := orDefault ctx [] in
  qw = []
  /\ filenameTerm qw filename zero = zero
  /\ pathTerm qw pl zero = zero
  /\ contentTerm qw fi zero = zero
  /\ JsMap.get p (snd (calculateRelevanceW files query ctx))
     = Some (entryTerm filename
               (decay fi pl
                  (Nat.iter (reachCount files p cf) add8
                     (if Str.mem p cf then lit15 else zero))))
  /\ tokenizeW [] = [].
Proof.
  intros W H Q qw filename pl cf.
  assert (E : qw = []) by (apply tokenizeW_no_word; exact Q).
  split; [exact E|].
  rewrite (scoresW_get files query ctx p fi W H).
  fold qw. rewrite E.
  repeat split.
  unfold scoreFile, additive.
  change (filenameTerm [] (Str.toLowerCase (Str.basename p)) zero) with zero.
  change (pathTerm [] (Str.toLowerCase p) zero) with zero.
  change (contentTerm [] fi zero) with zero.
  rewrite seedTerm_zero, reachTerm_iter. reflexivity.
Qed.

Lemma wordless_query_scores_witness :
  existsb Wide.isWord (Wide.toLowerCase []) = false /\
  JsMap.get "src/db/client.ts"
    (snd (calculateRelevanceW pyCatalog [] (Some ["main.py"])))
  = Some lit8 /\
  JsMap.get "src/db/client.ts"
    (snd (calculateRelevance pyCatalog "" (Some ["main.py"])))
  = Some lit8.
Proof.
  assert (W : JsMap.wf pyCatalog) by solve_wf.
  assert (H : In ("src/db/client.ts", clientFile) pyCatalog) by (simpl; tauto).
  assert (G : JsMap.get "src/db/client.ts"
                (snd (calculateRelevanceW pyCatalog [] (Some ["main.py"])))
              = Some lit8)
    by exact (proj1 (proj2 (proj2 (proj2 (proj2
         (wordless_query_scores pyCatalog [] (Some ["main.py"])
            "src/db/client.ts" clientFile W H eq_refl)))))).
  split; [reflexivity|]. split; [exact G|].
  rewrite <- (calculateRelevanceW_widen pyCatalog "" (Some ["main.py"])).
  exact G.
Defined.

(** ** Scores are never negative *)

Import NumFacts.

Create HintDb score.
#[local] Hint Resolve add_nonneg mul_nonneg ofNat_nonneg : score.

Lemma lits_posFinite :
  posFinite lit2 /\ posFinite lit5 /\ posFinite lit8 /\ posFinite lit10
  /\ posFinite lit15 /\ posFinite lit0_5 /\ posFinite lit0_7 /\ posFinite lit0_8.
Proof. repeat split. Qed.

Lemma iter_add8_nonneg n score : nonneg score -> nonneg (Nat.iter n add8 score).
Proof.
  intros H. induction n as [|n IH]; simpl.
  - exact H.
  - apply add_nonneg; [exact IH | exact I].
Qed.

Lemma scoreFile_nonneg files qw ctx p fi : nonneg (scoreFile files qw ctx p fi).
Proof.
  unfold scoreFile, entryTerm.
  assert (A : nonneg (additive files qw ctx p fi)).
  { unfold additive. rewrite reachTerm_iter. apply iter_add8_nonneg.
    unfold seedTerm, contentTerm, pathTerm, filenameTerm.
    assert (F : nonneg (if existsb (fun word => Str.includes
                  (Str.toLowerCase (Str.basename p)) word) qw
                then add zero lit10 else zero))
      by (destruct (existsb _ qw); exact I).
    assert (C : forall s n l, nonneg s -> posFinite l ->
                              nonneg (add s (mul (ofNat n) l)))
      by (intros; auto with score).
    destruct ctx as [cf|]; [destruct (Str.mem p cf)|];
      repeat first [apply C | apply add_nonneg | exact F | exact I]. }
  assert (D : nonneg (decay fi (Str.toLowerCase p) (additive files qw ctx p fi))).
  { destruct (decay_cases fi (Str.toLowerCase p) (additive files qw ctx p fi))
      as [E|[E|[E|E]]]; rewrite E; auto with score;
      apply mul_nonneg; try exact A; exact I. }
  destruct (isEntryPoint _); [apply add_nonneg; [exact D | exact I] | exact D].
Qed.

(** C10. After [calculateRelevance] on a catalog, every score of the
    returned mapping and every [relevanceScore] written to a record passes
    [score >= 0]. *)
Theorem scores_nonnegative (files : Catalog) (query : string)
    (ctx : option (list string)) :
  JsMap.wf files ->
  (forall p s, In (p, s) (snd (calculateRelevance files query ctx)) ->
               ge0 s = true)
  /\ (forall p fi, In (p, fi) (fst (calculateRelevance files query ctx)) ->
                   ge0 (relevanceScore fi) = true).
Proof.
  intros W. rewrite calculateRelevance_map by exact W. simpl. split.
  - intros p s H. apply in_map_iff in H. destruct H as [[k v] [E _]].
    inversion E; subst. apply nonneg_ge0, scoreFile_nonneg.
  - intros p fi H. apply in_map_iff in H. destruct H as [[k v] [E _]].
    inversion E; subst. apply nonneg_ge0, scoreFile_nonneg.
Qed.

Lemma scores_nonnegative_witness :
  JsMap.wf docsCatalog /\
  ge0 (relevanceScore
         (snd (nth 0 (fst (calculateRelevance docsCatalog "settings" None))
                 ("", clientFile)))) = true.
Proof.
  assert (W : JsMap.wf docsCatalog) by solve_wf.
  split; [exact W|].
  apply (proj2 (scores_nonnegative docsCatalog "settings" None W)
           "docs/config/settings.md").
  vm_compute. left. reflexivity.
Defined.

(* ================================================================== *)
(** * Selection: properties *)
(* ================================================================== *)

(** Every record of the scored catalog carries a non-negative score. *)
Lemma scored_values_nonneg files query ctx :
  JsMap.wf files ->
  Forall scoreNonneg (JsMap.values (fst (calculateRelevance files query ctx))).
Proof.
  intros W. rewrite calculateRelevance_map by exact W. simpl.
  unfold JsMap.values. rewrite map_map. apply Forall_forall.
  intros f H. apply in_map_iff in H. destruct H as [[k v] [E _]].
  subst f. apply scoreFile_nonneg.
Qed.

(** ** The sort *)

Lemma Forall_insert (P : FileInfo -> Prop) x : forall l,
  P x -> Forall P l -> Forall P (insert byScoreDesc x l).
Proof.
  induction l as [|y l IH]; simpl; intros Hx Hl.
  - constructor; [exact Hx | constructor].
  - inversion Hl; subst.
    destruct (gt0 (byScoreDesc x y)).
    + constructor; [assumption | apply IH; assumption].
    + constructor; assumption.
Qed.

Lemma Forall_sort (P : FileInfo -> Prop) l :
  Forall P l -> Forall P (sort byScoreDesc l).
Proof.
  induction 1 as [|x l Hx Hl IH]; simpl.
  - constructor.
  - apply Forall_insert; assumption.
Qed.

Lemma insert_zeroTail x : forall l,
  scoreNonneg x -> Forall scoreNonneg l -> zeroTail l ->
  zeroTail (insert byScoreDesc x l).
Proof.
  induction l as [|y l IH]; simpl; intros Hx Hl Z.
  - split; [intros _; constructor | exact I].
  - inversion Hl as [|? ? Hy Hl']; subst. destruct Z as [Zy Zl].
    unfold byScoreDesc at 1.
    destruct (gt0 (sub (relevanceScore y) (relevanceScore x))) eqn:G.
    + simpl. split; [|apply IH; assumption].
      intros Y0. exfalso.
      rewrite (nonneg_isZero _ Hy Y0) in G.
      rewrite (sub_zero_l _ Hx) in G. discriminate G.
    + simpl. split; [|split; assumption].
      intros X0.
      rewrite (nonneg_isZero _ Hx X0) in G.
      rewrite (sub_zero_r _ Hy) in G.
      assert (Y0 : score0 y).
      { unfold score0. rewrite (nonneg_not_gt0 _ Hy G). reflexivity. }
      constructor; [exact Y0 | exact (Zy Y0)].
Qed.

Lemma sort_zeroTail l :
  Forall scoreNonneg l -> zeroTail (sort byScoreDesc l).
Proof.
  induction 1 as [|x l Hx Hl IH]; simpl.
  - exact I.
  - apply insert_zeroTail; try assumption.
    apply Forall_sort. exact Hl.
Qed.

Lemma zeroTail_split pre : forall f post,
  zeroTail (pre ++ f :: post) -> score0 f -> Forall score0 post.
Proof.
  induction pre as [|x pre IH]; simpl; intros f post [Z1 Z2] F0.
  - exact (Z1 F0).
  - exact (IH f post Z2 F0).
Qed.

(** Records whose scores are all [+0] are left in place by the sort. *)
Lemma sort_all_zero l :
  Forall (fun f => relevanceScore f = zero) l -> sort byScoreDesc l = l.
Proof.
  induction 1 as [|x l Hx Hl IH]; simpl.
  - reflexivity.
  - rewrite IH. destruct l as [|y l']; simpl; [reflexivity|].
    inversion Hl; subst. unfold byScoreDesc.
    rewrite Hx. replace (relevanceScore y) with zero by (symmetry; assumption).
    reflexivity.
Qed.

Lemma insert_stable s x : forall l,
  filter (hasScore s) (insert byScoreDesc x l) = filter (hasScore s) (x :: l).
Proof.
  induction l as [|y l IH]; simpl.
  - reflexivity.
  - destruct (gt0 (byScoreDesc x y)) eqn:G; [|reflexivity].
    simpl. rewrite IH. simpl.
    destruct (hasScore s y) eqn:Hy; destruct (hasScore s x) eqn:Hx;
      try reflexivity.
    exfalso. unfold hasScore in Hx, Hy.
    destruct (Num.eq_dec (relevanceScore y) s) as [Ey|]; [|discriminate Hy].
    destruct (Num.eq_dec (relevanceScore x) s) as [Ex|]; [|discriminate Hx].
    unfold byScoreDesc in G. rewrite Ey, Ex, sub_diag in G.
    discriminate G.
Qed.

Lemma sort_stable s l :
  filter (hasScore s) (sort byScoreDesc l) = filter (hasScore s) l.
Proof.
  induction l as [|x l IH]; simpl.
  - reflexivity.
  - rewrite insert_stable. simpl. rewrite IH. reflexivity.
Qed.

(** ** The walk *)

Arguments selectStep : simpl never.

Lemma selectLoop_cons maxTok minF f rest st :
  selectLoop maxTok minF (f :: rest) st
  = match selectStep maxTok minF st f with
    | Break => st
    | Next st' => selectLoop maxTok minF rest st'
    end.
Proof. reflexivity. Qed.

Lemma selectStep_break maxTok minF sel tot f :
  selectStep maxTok minF (sel, tot) f = Break
  <-> score0 f /\ (minF <= Z.of_nat (List.length sel))%Z.
Proof.
  unfold selectStep, score0.
  destruct (isZero (relevanceScore f)); simpl.
  - destruct (Z.leb_spec minF (Z.of_nat (List.length sel))).
    + tauto.
    + split; [|lia].
      destruct (tot + fileTokens f <=? maxTok)%Z; [discriminate|].
      destruct (Z.of_nat (List.length sel) <? minF)%Z; discriminate.
  - split; [|intros [H _]; discriminate H].
    destruct (tot + fileTokens f <=? maxTok)%Z; [discriminate|].
    destruct (Z.of_nat (List.length sel) <? minF)%Z; discriminate.
Qed.

(** Below the floor every candidate is taken, whatever its score or cost. *)
Lemma selectStep_floor maxTok minF sel tot f :
  (Z.of_nat (List.length sel) < minF)%Z ->
  selectStep maxTok minF (sel, tot) f
  = Next (sel ++ [f], (tot + fileTokens f)%Z).
Proof.
  intros H. unfold selectStep.
  replace (minF <=? Z.of_nat (List.length sel))%Z with false
    by (symmetry; apply Z.leb_gt; exact H).
  rewrite andb_false_r.
  destruct (tot + fileTokens f <=? maxTok)%Z; [reflexivity|].
  replace (Z.of_nat (List.length sel) <? minF)%Z with true
    by (symmetry; apply Z.ltb_lt; exact H).
  reflexivity.
Qed.

(** Over budget with the floor met, a candidate of non-zero score is
    passed over and the state is unchanged. *)
Lemma selectStep_skip maxTok minF sel tot f :
  (maxTok < tot + fileTokens f)%Z ->
  (minF <= Z.of_nat (List.length sel))%Z ->
  isZero (relevanceScore f) = false ->
  selectStep maxTok minF (sel, tot) f = Next (sel, tot).
Proof.
  intros B F N. unfold selectStep. rewrite N. simpl.
  replace (tot + fileTokens f <=? maxTok)%Z with false
    by (symmetry; apply Z.leb_gt; exact B).
  replace (Z.of_nat (List.length sel) <? minF)%Z with false
    by (symmetry; apply Z.ltb_ge; exact F).
  reflexivity.
Qed.

(** With the floor met, the walk over zero scores selects nothing more. *)
Lemma selectLoop_zero_done maxTok minF l sel tot :
  Forall score0 l -> (minF <= Z.of_nat (List.length sel))%Z ->
  selectLoop maxTok minF l (sel, tot) = (sel, tot).
Proof.
  intros Z F. destruct l as [|f l]; [reflexivity|].
  inversion Z; subst. rewrite selectLoop_cons.
  replace (selectStep maxTok minF (sel, tot) f) with Break; [reflexivity|].
  symmetry. apply selectStep_break. split; assumption.
Qed.

(** Over zero scores only, the walk takes candidates up to the floor. *)
Lemma selectLoop_all_zero maxTok minF : forall l sel tot,
  Forall score0 l ->
  fst (selectLoop maxTok minF l (sel, tot))
  = sel ++ firstn (Z.to_nat (minF - Z.of_nat (List.length sel))) l.
Proof.
  induction l as [|f l IH]; intros sel tot Z.
  - simpl. rewrite firstn_nil, app_nil_r. reflexivity.
  - inversion Z; subst.
    destruct (Z.le_gt_cases minF (Z.of_nat (List.length sel))) as [F|F].
    + rewrite selectLoop_zero_done by assumption.
      replace (Z.to_nat (minF - Z.of_nat (List.length sel))) with O by lia.
      simpl. rewrite app_nil_r. reflexivity.
    + rewrite selectLoop_cons, selectStep_floor by lia.
      rewrite IH by assumption.
      rewrite length_app. simpl.
      replace (Z.to_nat (minF - Z.of_nat (List.length sel)))
        with (S (Z.to_nat (minF - Z.of_nat (List.length sel + 1)))) by lia.
      simpl. rewrite <- app_assoc. reflexivity.
Qed.

(** ** Scoring again *)

Lemma calculateRelevance_wf files query ctx :
  JsMap.wf files -> JsMap.wf (fst (calculateRelevance files query ctx)).
Proof.
  intros W. rewrite calculateRelevance_map by exact W. simpl.
  unfold JsMap.wf. rewrite keys_rescore. exact W.
Qed.

(** A pass overwrites whatever an earlier pass wrote, also one for
    another query or other context files. *)
Lemma calculateRelevance_again files q1 c1 query ctx :
  JsMap.wf files ->
  calculateRelevance (fst (calculateRelevance files q1 c1)) query ctx
  = calculateRelevance files query ctx.
Proof.
  intros W.
  rewrite (calculateRelevance_map _ query ctx (calculateRelevance_wf files q1 c1 W)).
  rewrite (calculateRelevance_map files q1 c1 W),
          (calculateRelevance_map files query ctx W). simpl.
  set (files1 := map (rescore files (tokenize q1) c1) files).
  assert (E : forall p fi,
    scoreFile files1 (tokenize query) ctx p fi
    = scoreFile files (tokenize query) ctx p fi).
  { intros p fi. apply scoreFile_ext. apply importsOf_rescore. }
  unfold files1. rewrite !map_map. f_equal.
  - apply map_ext. intros [p fi]. unfold rescore. simpl.
    fold files1. rewrite E. reflexivity.
  - apply map_ext. intros [p fi]. unfold scoreEntry, rescore. simpl.
    fold files1. rewrite E. reflexivity.
Qed.

Lemma getOptimalContext_again files q1 c1 query config :
  JsMap.wf files ->
  getOptimalContext (fst (calculateRelevance files q1 c1)) query config
  = getOptimalContext files query config.
Proof.
  intros W. unfold getOptimalContext.
  rewrite calculateRelevance_again by exact W. reflexivity.
Qed.

(** ** Budget overrun and the floor *)

(** C3. At a candidate [f] of the sorted list that would push the running
    total above [maxTokens]: while fewer than [minFiles] files are
    selected, [f] is selected and its cost added (the total then exceeds
    [maxTokens]); once [minFiles] files are selected, the walk from [f]
    gives what the walk from the candidate after [f] gives, in the same
    state, so [f] is left out and later candidates are still examined;
    when the score of [f] is not 0 the loop body itself moves on with
    the state unchanged. *)
Theorem over_budget_floor_then_skip (files : Catalog) (query : string)
    (config : ContextConfig) (pre : list FileInfo) (f : FileInfo)
    (post sel : list FileInfo) (tot : Z) :
  JsMap.wf files ->
  sortedFiles files query config = pre ++ f :: post ->
  let maxTok := orDefault (maxTokens config) 100000%Z in
  let minF := orDefault (minFiles config) 3%Z in
  (maxTok < tot + fileTokens f)%Z ->
  ((Z.of_nat (List.length sel) < minF)%Z ->
     selectStep maxTok minF (sel, tot) f
     = Next (sel ++ [f], (tot + fileTokens f)%Z))
  /\ ((minF <= Z.of_nat (List.length sel))%Z ->
        selectLoop maxTok minF (f :: post) (sel, tot)
        = selectLoop maxTok minF post (sel, tot))
  /\ ((minF <= Z.of_nat (List.length sel))%Z ->
        isZero (relevanceScore f) = false ->
        selectStep maxTok minF (sel, tot) f = Next (sel, tot)).
Proof.
  intros W S maxTok minF B. repeat split.
  - intros F. apply selectStep_floor, F.
  - intros F. destruct (isZero (relevanceScore f)) eqn:Z.
    + assert (ZT : zeroTail (pre ++ f :: post)).
      { rewrite <- S. unfold sortedFiles. apply sort_zeroTail.
        apply scored_values_nonneg, W. }
      pose proof (zeroTail_split pre f post ZT Z) as ZP.
      rewrite (selectLoop_zero_done maxTok minF post sel tot ZP F).
      apply selectLoop_zero_done; [constructor; assumption | exact F].
    + rewrite selectLoop_cons, selectStep_skip by assumption. reflexivity.
  - intros F N. apply selectStep_skip; assumption.
Qed.

Lemma over_budget_floor_then_skip_witness :
  let sorted := sortedFiles budgetCatalog "auth" tightConfig in
  let pre := firstn 1 sorted in
  let f := nth 1 sorted bigFile in
  let post := skipn 2 sorted in
  map path sorted = ["auth.ts"; "src/big.ts"; "src/small.ts"] /\
  (5 < 1 + fileTokens f)%Z /\
  selectStep 5 1 ([], 1%Z) f = Next ([f], (1 + fileTokens f)%Z) /\
  selectLoop 5 1 (f :: post) (pre, 1%Z) = selectLoop 5 1 post (pre, 1%Z) /\
  map path (snd (getOptimalContext budgetCatalog "auth" tightConfig))
  = ["auth.ts"; "src/small.ts"].
Proof.
  intros sorted pre f post.
  assert (W : JsMap.wf budgetCatalog) by solve_wf.
  assert (S : sortedFiles budgetCatalog "auth" tightConfig = pre ++ f :: post)
    by (vm_compute; reflexivity).
  assert (B : (5 < 1 + fileTokens f)%Z) by (vm_compute; reflexivity).
  split; [vm_compute; reflexivity|]. split; [exact B|].
  split; [|split].
  - apply (proj1 (over_budget_floor_then_skip budgetCatalog "auth" tightConfig
                    pre f post [] 1%Z W S B)).
    simpl. lia.
  - apply (proj1 (proj2 (over_budget_floor_then_skip budgetCatalog "auth"
                           tightConfig pre f post pre 1%Z W S B))).
    simpl. lia.
  - vm_compute. reflexivity.
Defined.

(** ** The floor over zero scores *)

Lemma scored_values_zero files query ctx :
  JsMap.wf files ->
  (forall p s, In (p, s) (snd (calculateRelevance files query ctx)) ->
               isZero s = true) ->
  Forall (fun f => relevanceScore f = zero)
         (JsMap.values (fst (calculateRelevance files query ctx))).
Proof.
  intros W Z. rewrite calculateRelevance_map in * by exact W. simpl in *.
  unfold JsMap.values. rewrite map_map. apply Forall_forall.
  intros f H. apply in_map_iff in H. destruct H as [[k v] [E I]].
  subst f. simpl. apply nonneg_isZero; [apply scoreFile_nonneg|].
  apply (Z k). apply (in_map (scoreEntry files (tokenize query) ctx)) in I.
  exact I.
Qed.

(** C4. On a catalog of 5 files whose scores for the query are all 0,
    with [minFiles = 3], the sorted list is the catalog order and the
    selection is exactly its first 3 files.  In general the loop body
    breaks exactly at a candidate of score 0 reached with at least
    [minFiles] files selected, and below the floor a candidate of score 0
    is selected. *)
Theorem floor_over_zero_scores (files : Catalog) (query : string)
    (config : ContextConfig) :
  JsMap.wf files ->
  List.length files = 5 ->
  orDefault (minFiles config) 3%Z = 3%Z ->
  (forall p s,
     In (p, s) (snd (calculateRelevance files query
                       (Some (orDefault (contextFiles config) [])))) ->
     isZero s = true) ->
  let sorted := sortedFiles files query config in
  let selected := snd (getOptimalContext files query config) in
  sorted = JsMap.values (fst (getOptimalContext files query config))
  /\ selected = firstn 3 sorted
  /\ List.length selected = 3
  /\ (forall maxTok minF sel tot f,
        selectStep maxTok minF (sel, tot) f = Break
        <-> isZero (relevanceScore f) = true
            /\ (minF <= Z.of_nat (List.length sel))%Z)
  /\ (forall maxTok minF sel tot f,
        isZero (relevanceScore f) = true ->
        (Z.of_nat (List.length sel) < minF)%Z ->
        selectStep maxTok minF (sel, tot) f
        = Next (sel ++ [f], (tot + fileTokens f)%Z)).
Proof.
  intros W L M Z sorted selected.
  pose proof (scored_values_zero _ _ _ W Z) as V.
  assert (S : sorted = JsMap.values (fst (getOptimalContext files query config))).
  { unfold sorted, sortedFiles, getOptimalContext. simpl.
    apply sort_all_zero, V. }
  assert (E : selected = firstn 3 sorted).
  { unfold selected, getOptimalContext. simpl. rewrite M.
    fold (sortedFiles files query config). fold sorted.
    rewrite selectLoop_all_zero; [reflexivity|].
    rewrite S. unfold getOptimalContext. simpl.
    eapply Forall_impl; [|exact V].
    intros a Ha. unfold score0. rewrite Ha. reflexivity. }
  split; [exact S|]. split; [exact E|]. split; [|split].
  - rewrite E. apply firstn_length_le.
    rewrite S. unfold getOptimalContext. simpl.
    rewrite calculateRelevance_map by exact W. simpl.
    unfold JsMap.values. rewrite !length_map. lia.
  - intros. apply selectStep_break.
  - intros maxTok minF sel tot f _ F. apply selectStep_floor, F.
Qed.

Lemma floor_over_zero_scores_witness :
  JsMap.wf idleCatalog /\
  List.length idleCatalog = 5 /\
  map path (snd (getOptimalContext idleCatalog "router" floorConfig))
  = ["a.c"; "b.c"; "c.c"].
Proof.
  assert (W : JsMap.wf idleCatalog) by solve_wf.
  assert (Z : forall p s,
    In (p, s) (snd (calculateRelevance idleCatalog "router"
                      (Some (orDefault (contextFiles floorConfig) [])))) ->
    isZero s = true).
  { intros p s H. vm_compute in H.
    repeat (destruct H as [H|H]; [inversion H; reflexivity|]).
    contradiction. }
  split; [exact W|]. split; [reflexivity|].
  rewrite (proj1 (proj2 (floor_over_zero_scores idleCatalog "router"
                           floorConfig W eq_refl eq_refl Z))).
  vm_compute. reflexivity.
Defined.

(** ** Repeated runs *)

(** C8. Scoring then selecting, twice in a row on the same catalog
    object, with the same query and configuration: the second scoring
    returns the same mapping, the second selection the same list in the
    same order, and the catalog is left with the same scores.  In the
    sorted list the files of any one score are in catalog order. *)
Theorem repeated_runs_agree (files : Catalog) (query : string)
    (config : ContextConfig) (ctx : option (list string)) :
  JsMap.wf files ->
  let run1 := calculateRelevance files query ctx in
  let sel1 := getOptimalContext (fst run1) query config in
  let run2 := calculateRelevance (fst sel1) query ctx in
  let sel2 := getOptimalContext (fst run2) query config in
  snd run2 = snd run1
  /\ snd sel2 = snd sel1
  /\ fst sel2 = fst sel1
  /\ (forall s,
        filter (hasScore s) (sortedFiles (fst run1) query config)
        = filter (hasScore s) (JsMap.values (fst sel1))).
Proof.
  intros W run1 sel1 run2 sel2.
  assert (E1 : sel1 = getOptimalContext files query config)
    by (apply getOptimalContext_again; exact W).
  assert (E2 : run2 = run1).
  { unfold run2. rewrite E1. unfold getOptimalContext. simpl.
    apply calculateRelevance_again; exact W. }
  assert (E3 : sel2 = sel1).
  { unfold sel2. rewrite E2. reflexivity. }
  rewrite E2, E3. repeat split.
  intros s. unfold sel1, sortedFiles, getOptimalContext. simpl.
  apply sort_stable.
Qed.

Lemma repeated_runs_agree_witness :
  let run1 := calculateRelevance budgetCatalog "auth" None in
  let sel1 := getOptimalContext (fst run1) "auth" tightConfig in
  let run2 := calculateRelevance (fst sel1) "auth" None in
  let sel2 := getOptimalContext (fst run2) "auth" tightConfig in
  JsMap.wf budgetCatalog /\ snd run2 = snd run1 /\ snd sel2 = snd sel1.
Proof.
  intros run1 sel1 run2 sel2.
  assert (W : JsMap.wf budgetCatalog) by solve_wf.
  pose proof (repeated_runs_agree budgetCatalog "auth" tightConfig None W)
    as [A [B _]].
  split; [exact W|]. split; [exact A | exact B].
Defined.


(* ================================================================== *)
(** * Further properties of the code *)
(* ================================================================== *)

Lemma append_assoc (a b c : string) : ((a ++ b) ++ c = a ++ (b ++ c))%string.
Proof. induction a as [|x a IH]; simpl; [reflexivity | rewrite IH; reflexivity]. Qed.

Lemma suffix_refl s : suffix s s.
Proof. exists ""%string. reflexivity. Qed.

Lemma suffix_trans a b c : suffix a b -> suffix b c -> suffix a c.
Proof.
  intros [p1 E1] [p2 E2]. exists (p2 ++ p1)%string. subst.
  rewrite append_assoc. reflexivity.
Qed.

Lemma suffix_cons a s t : suffix t s -> suffix t (String a s).
Proof. intros [pre E]. exists (String a pre). simpl. rewrite E. reflexivity. Qed.

Lemma substr_suffix g t s : substr g t -> suffix t s -> substr g s.
Proof.
  intros [pre [post E]] [p E2]. exists (p ++ pre)%string, post. subst.
  rewrite append_assoc. reflexivity.
Qed.

Lemma take_drop n : forall s, s = (Str.take n s ++ Str.drop n s)%string.
Proof.
  induction n as [|n IH]; intros [|c s]; simpl; try reflexivity.
  rewrite <- IH. reflexivity.
Qed.

Lemma suffix_drop n s : suffix (Str.drop n s) s.
Proof. exists (Str.take n s). apply take_drop. Qed.

Lemma substr_take n s : substr (Str.take n s) s.
Proof. exists ""%string, (Str.drop n s). simpl. apply take_drop. Qed.

Lemma allChars_take_span p : forall n s,
  n <= span p s -> allChars p (Str.take n s) = true.
Proof.
  induction n as [|n IH]; intros [|c s]; simpl; try reflexivity.
  destruct (p c) eqn:E; [|lia]. intros H. simpl. apply IH. lia.
Qed.

Lemma take_nonempty n s : 1 <= n -> n <= String.length s -> Str.take n s <> ""%string.
Proof. destruct n, s; simpl; try lia; discriminate. Qed.

Lemma captured_tail nd r s g : captured r s g -> captured (nd :: r) s g.
Proof. intros [N [S [p [I A]]]]. repeat split; auto. exists p. split; [right|]; auto. Qed.

Lemma captured_suffix r t s g : captured r t g -> suffix t s -> captured r s g.
Proof.
  intros [N [S P]] X. repeat split; auto. eapply substr_suffix; eauto.
Qed.

Lemma matchHere_captured r : forall s cap c rest,
  matchHere r s cap = Some (c, rest) ->
  suffix rest s /\ (c = cap \/ exists g, c = Some g /\ captured r s g).
Proof.
  induction r as [|nd r IH]; intros s cap c rest; simpl.
  - intros H; inversion H; subst. split; [apply suffix_refl | left; reflexivity].
  - assert (K : forall n cap', matchHere r (Str.drop n s) cap' = Some (c, rest) ->
                suffix rest s /\ (c = cap' \/ exists g, c = Some g /\ captured (nd :: r) s g)).
    { intros n cap' H. apply IH in H. destruct H as [S [E|[g [E C]]]].
      - split; [eapply suffix_trans; [exact S | apply suffix_drop] | left; exact E].
      - split; [eapply suffix_trans; [exact S | apply suffix_drop]|].
        right. exists g. split; [exact E|]. apply captured_tail.
        eapply captured_suffix; [exact C | apply suffix_drop]. }
    destruct nd as [l|p|p|p|p].
    + destruct (Str.startsWith s l); [|discriminate]. apply K.
    + destruct s as [|a s]; [discriminate|]. destruct (p a); [|discriminate].
      intros H. apply (K 1 cap) in H. exact H.
    + intros H. apply tryCounts_Some in H. destruct H as [m [_ H]]. apply (K m cap H).
    + intros H. apply tryCounts_Some in H. destruct H as [m [_ H]]. apply (K m cap H).
    + intros H. apply tryCounts_Some in H. destruct H as [m [B H]].
      destruct (K m _ H) as [S [E|E]]; split; auto.
      right. exists (Str.take m s). split; [exact E|].
      pose proof (span_length p s).
      split; [apply take_nonempty; lia|]. split; [apply substr_take|].
      exists p. split; [left; reflexivity | apply allChars_take_span; lia].
Qed.

Lemma exec_captured r : forall s c rest,
  exec r s = Some (c, rest) ->
  suffix rest s /\ (c = None \/ exists g, c = Some g /\ captured r s g).
Proof.
  induction s as [|a s IH]; intros c rest; simpl.
  - destruct (matchHere r "" None) as [[c' rest']|] eqn:E; [|discriminate].
    intros H; inversion H; subst. apply (matchHere_captured _ _ _ _ _ E).
  - destruct (matchHere r (String a s) None) as [[c' rest']|] eqn:E.
    + intros H; inversion H; subst. apply (matchHere_captured _ _ _ _ _ E).
    + intros H. apply IH in H. destruct H as [S [N|[g [Eg C]]]].
      * split; [apply suffix_cons, S | left; exact N].
      * split; [apply suffix_cons, S|]. right. exists g. split; [exact Eg|].
        eapply captured_suffix; [exact C|]. apply suffix_cons, suffix_refl.
Qed.

Lemma add_In x y s : In y (JsSet.add x s) -> y = x \/ In y s.
Proof.
  unfold JsSet.add. destruct (Str.mem x s); [tauto|].
  intros H. apply in_app_or in H. destruct H as [H|[H|[]]]; auto.
Qed.

Lemma add_NoDup x s : NoDup s -> NoDup (JsSet.add x s).
Proof.
  unfold JsSet.add. destruct (Str.mem x s) eqn:E; [tauto|].
  intros N. apply mem_not_In in E.
  apply NoDup_rev in N. rewrite <- (rev_involutive (s ++ [x])).
  apply NoDup_rev. rewrite rev_app_distr. simpl. constructor; [|exact N].
  rewrite <- in_rev. exact E.
Qed.

Lemma execLoop_NoDup r : forall fuel s acc, NoDup acc -> NoDup (execLoop fuel r s acc).
Proof.
  induction fuel as [|fuel IH]; intros s acc N; simpl; [exact N|].
  destruct (exec r s) as [[[g|] rest]|]; try apply IH; auto.
  destruct (Str.isEmpty g); apply IH; auto. apply add_NoDup, N.
Qed.

Lemma execLoop_captured content r (P : string -> Prop) :
  (forall g, captured r content g -> P g) ->
  forall fuel s acc, suffix s content -> Forall P acc ->
  Forall P (execLoop fuel r s acc).
Proof.
  intros HP. induction fuel as [|fuel IH]; intros s acc S F; simpl; [exact F|].
  destruct (exec r s) as [[c rest]|] eqn:E; [|exact F].
  apply exec_captured in E. destruct E as [S' C].
  assert (SR : suffix rest content) by (eapply suffix_trans; eauto).
  destruct c as [g|]; [|apply IH; auto].
  destruct (Str.isEmpty g); [apply IH; auto|].
  apply IH; [exact SR|].
  destruct C as [C|[g' [Eg C]]]; [discriminate|]. inversion Eg; subst g'.
  apply Forall_forall. intros y Hy. apply add_In in Hy. destruct Hy as [->|Hy].
  - apply HP. eapply captured_suffix; eauto.
  - rewrite Forall_forall in F. apply F, Hy.
Qed.

Lemma extractImports_NoDup_all content extension :
  NoDup (extractImports content extension).
Proof.
  unfold extractImports. destruct (patternsFor extension) as [patterns|]; [|constructor].
  assert (N : NoDup JsSet.empty) by constructor. revert N.
  generalize JsSet.empty as acc.
  induction patterns as [|r rs IH]; intros acc N; cbn [fold_left]; [exact N|].
  apply IH, execLoop_NoDup, N.
Qed.

Lemma extractImports_captured content extension x :
  In x (extractImports content extension) ->
  exists patterns r, patternsFor extension = Some patterns /\ In r patterns
                     /\ captured r content x.
Proof.
  unfold extractImports. destruct (patternsFor extension) as [patterns|]; [|intros []].
  intros H. exists patterns.
  assert (G : forall acc,
    Forall (fun x => exists r, In r patterns /\ captured r content x) acc ->
    forall rs, incl rs patterns ->
    Forall (fun x => exists r, In r patterns /\ captured r content x)
      (fold_left (fun imports pattern =>
                    execLoop (S (String.length content)) pattern content imports)
                 rs acc)).
  { intros acc F rs. revert acc F. induction rs as [|r rs IH]; intros acc F I; cbn [fold_left]; [exact F|].
    apply IH; [|intros y Hy; apply I; right; exact Hy].
    apply (execLoop_captured content r); [|apply suffix_refl|exact F].
    intros g C. exists r. split; [apply I; left; reflexivity | exact C]. }
  specialize (G JsSet.empty (Forall_nil _) patterns (incl_refl _)).
  rewrite Forall_forall in G. destruct (G x H) as [r [I C]].
  exists r. auto.
Qed.

Lemma allChars_excludes p a : p a = false -> forall x,
  allChars p x = true -> anyChar (chr a) x = false.
Proof.
  intros Pa. induction x as [|c x IH]; simpl; [reflexivity|].
  intros H. apply andb_true_iff in H. destruct H as [Hc Hx].
  rewrite (IH Hx), orb_false_r. unfold chr.
  destruct (Ascii.eqb_spec c a) as [->|]; [congruence | reflexivity].
Qed.

Lemma allChars_notc p : forall x,
  allChars (notc p) x = true -> anyChar p x = false.
Proof.
  induction x as [|c x IH]; simpl; [reflexivity|].
  intros H. apply andb_true_iff in H. destruct H as [Hc Hx].
  rewrite (IH Hx), orb_false_r. unfold notc in Hc.
  destruct (p c); [discriminate Hc | reflexivity].
Qed.

Lemma patternsFor_cases extension patterns :
  patternsFor extension = Some patterns ->
  (In extension pyExtensions /\ patterns = pyPatterns)
  \/ (In extension jsExtensions /\ patterns = jsPatterns)
  \/ (In extension javaExtensions /\ patterns = javaPatterns)
  \/ (In extension goExtensions /\ patterns = goPatterns)
  \/ (In extension rsExtensions /\ patterns = rsPatterns)
  \/ (In extension cExtensions /\ patterns = cPatterns).
Proof.
  unfold patternsFor.
  repeat match goal with
  | |- context [Str.mem extension ?l] =>
      let E := fresh "E" in
      destruct (Str.mem extension l) eqn:E;
      [ apply mem_In in E; intros H; inversion H; subst; tauto | clear E ]
  end.
  discriminate.
Qed.

(** The group class of a concrete pattern. *)
Ltac group_class H :=
  simpl in H;
  repeat match type of H with
  | _ \/ _ => destruct H as [H|H]
  | False => contradiction
  | ?a = ?b =>
      first [discriminate H | is_var b; subst b | is_var a; subst a
            | injection H as H]
  end.

(** X1. The import set of a file holds no target twice, and every target
    in it is a non-empty substring of the file's content. *)
Theorem extractImports_substrings (content extension : string) :
  NoDup (extractImports content extension)
  /\ (forall x, In x (extractImports content extension) ->
        x <> ""%string /\ Str.includes content x = true).
Proof.
  split; [apply extractImports_NoDup_all|].
  intros x H. apply extractImports_captured in H.
  destruct H as [patterns [r [_ [_ [N [S _]]]]]].
  split; [exact N|]. apply includes_substring. exact S.
Qed.

Lemma extractImports_substrings_witness :
  In "collections"%string (extractImports pyExample ".py") /\
  Str.includes pyExample "collections" = true.
Proof.
  assert (H : In "collections"%string (extractImports pyExample ".py"))
    by (vm_compute; tauto).
  split; [exact H|].
  exact (proj2 (proj2 (extractImports_substrings pyExample ".py")
                  "collections" H)).
Defined.

(** X2. No extracted target contains a double quote.  Python and Java
    targets are made of word characters and dots, Rust targets of word
    characters and colons, JavaScript-family and Go targets contain no
    quote of either kind, and C-family targets no [>]. *)
Theorem extractImports_charset (content extension x : string) :
  In x (extractImports content extension) ->
  anyChar (chr dquote) x = false
  /\ (In extension (pyExtensions ++ javaExtensions) ->
      allChars (orc (chr "."%char) word) x = true)
  /\ (In extension (jsExtensions ++ goExtensions) -> anyChar quote x = false)
  /\ (In extension rsExtensions -> allChars (orc (chr ":"%char) word) x = true)
  /\ (In extension cExtensions -> anyChar (chr ">"%char) x = false).
Proof.
  intros H. apply extractImports_captured in H.
  destruct H as [patterns [r [P [I [_ [_ [p [G A]]]]]]]].
  apply patternsFor_cases in P.
  destruct P as [[E ->]|[[E ->]|[[E ->]|[[E ->]|[[E ->]|[E ->]]]]]];
    group_class I; group_class G;
    (split; [apply (allChars_excludes _ dquote eq_refl _ A)|]);
    repeat split; intros E';
    try exact A;
    try (apply allChars_notc; exact A);
    try (apply (allChars_excludes _ ">"%char eq_refl _ A));
    exfalso; simpl in E, E'; intuition (subst; discriminate).
Qed.

Lemma extractImports_charset_witness :
  In "os"%string (extractImports pyExample ".py") /\
  allChars (orc (chr "."%char) word) "os" = true.
Proof.
  assert (H : In "os"%string (extractImports pyExample ".py"))
    by (vm_compute; tauto).
  split; [exact H|].
  apply (proj1 (proj2 (extractImports_charset pyExample ".py" "os" H))).
  simpl. tauto.
Defined.

(** ** Query tokens *)

Lemma ofList_spec l : forall acc,
  NoDup acc ->
  NoDup (fold_left (fun s x => JsSet.add x s) l acc)
  /\ (forall x, In x (fold_left (fun s x => JsSet.add x s) l acc)
                <-> In x acc \/ In x l).
Proof.
  induction l as [|y l IH]; intros acc N; simpl.
  - split; [exact N | intros x; tauto].
  - destruct (IH (JsSet.add y acc) (add_NoDup y acc N)) as [N' I'].
    split; [exact N'|]. intros x. rewrite I'.
    unfold JsSet.add. destruct (Str.mem y acc) eqn:E.
    + apply mem_In in E. split; [tauto|]. intros [H|[H|H]]; subst; tauto.
    + rewrite in_app_iff. simpl. split; intros H; intuition.
Qed.

Lemma matchAll_captured content r : forall fuel s,
  suffix s content ->
  Forall (captured r content) (matchAll fuel r s).
Proof.
  induction fuel as [|fuel IH]; intros s S; simpl; [constructor|].
  destruct (exec r s) as [[c rest]|] eqn:E; [|constructor].
  apply exec_captured in E. destruct E as [S' C].
  destruct c as [g|]; [|constructor].
  destruct C as [C|[g' [Eg C]]]; [discriminate|]. inversion Eg; subst g'.
  constructor.
  - eapply captured_suffix; eauto.
  - apply IH. eapply suffix_trans; eauto.
Qed.

Lemma lowerChar_not_upper c : Str.isUpper (Str.lowerChar c) = false.
Proof. destruct c as [[] [] [] [] [] [] [] []]; reflexivity. Qed.

Lemma lowerChar_idem c : Str.lowerChar (Str.lowerChar c) = Str.lowerChar c.
Proof. destruct c as [[] [] [] [] [] [] [] []]; reflexivity. Qed.

Lemma toLowerCase_idem s : Str.toLowerCase (Str.toLowerCase s) = Str.toLowerCase s.
Proof.
  induction s as [|c s IH]; simpl; [reflexivity|].
  rewrite lowerChar_idem, IH. reflexivity.
Qed.

Lemma toLowerCase_no_upper s :
  allChars (notc Str.isUpper) (Str.toLowerCase s) = true.
Proof.
  induction s as [|c s IH]; simpl; [reflexivity|].
  unfold notc at 1. rewrite lowerChar_not_upper, IH. reflexivity.
Qed.

Lemma allChars_append p a : forall b,
  allChars p (a ++ b)%string = allChars p a && allChars p b.
Proof.
  induction a as [|c a IH]; intros b; simpl; [reflexivity|].
  rewrite IH, andb_assoc. reflexivity.
Qed.

Lemma allChars_substr p g s : substr g s -> allChars p s = true -> allChars p g = true.
Proof.
  intros [pre [post ->]]. rewrite !allChars_append.
  intros H. apply andb_true_iff in H. destruct H as [_ H].
  apply andb_true_iff in H. tauto.
Qed.

Lemma allChars_token t :
  allChars word t = true -> allChars (notc Str.isUpper) t = true ->
  allChars tokenChar t = true.
Proof.
  induction t as [|c t IH]; simpl; [reflexivity|].
  intros H1 H2. apply andb_true_iff in H1, H2.
  destruct H1 as [W1 W2], H2 as [U1 U2].
  rewrite (IH W2 U2), andb_true_r.
  unfold word in W1. unfold notc in U1. unfold tokenChar.
  destruct (Str.isUpper c); [discriminate U1 | exact W1].
Qed.

(** X3. The query tokens are pairwise distinct; each is non-empty, made of
    lower-case letters, digits and underscores only, and occurs in the
    lower-cased query. *)
Theorem tokenize_tokens (query : string) :
  NoDup (tokenize query)
  /\ (forall t, In t (tokenize query) ->
        t <> ""%string
        /\ allChars tokenChar t = true
        /\ Str.includes (Str.toLowerCase query) t = true).
Proof.
  unfold tokenize.
  set (ql := Str.toLowerCase query).
  destruct (ofList_spec (matchAll (S (String.length ql)) wordPattern ql) []
              (NoDup_nil _)) as [N I].
  split; [exact N|].
  intros t H. apply I in H. destruct H as [[]|H].
  pose proof (matchAll_captured ql wordPattern (S (String.length ql)) ql
                (suffix_refl ql)) as F.
  rewrite Forall_forall in F. destruct (F t H) as [Ne [S [p [G A]]]].
  group_class G.
  split; [exact Ne|]. split.
  - apply allChars_token; [exact A|].
    apply (allChars_substr _ t ql S). apply toLowerCase_no_upper.
  - apply includes_substring, S.
Qed.

Lemma tokenize_tokens_witness :
  In "auth"%string (tokenize "Fix AUTH bug, auth!") /\
  allChars tokenChar "auth" = true.
Proof.
  assert (H : In "auth"%string (tokenize "Fix AUTH bug, auth!"))
    by (vm_compute; tauto).
  split; [exact H|].
  exact (proj1 (proj2 (proj2 (tokenize_tokens "Fix AUTH bug, auth!") "auth" H))).
Defined.

(** ** Scoring: what the pass depends on and what it leaves alone *)

Lemma filter_length_perm (A : Type) (f : A -> bool) l1 l2 :
  Permutation l1 l2 ->
  List.length (filter f l1) = List.length (filter f l2).
Proof.
  induction 1 as [|x l l' _ IH|x y l|l l' l'' _ IH1 _ IH2]; simpl.
  - reflexivity.
  - destruct (f x); simpl; congruence.
  - destruct (f x), (f y); reflexivity.
  - congruence.
Qed.

Lemma existsb_perm (A : Type) (f : A -> bool) l1 l2 :
  Permutation l1 l2 -> existsb f l1 = existsb f l2.
Proof.
  induction 1 as [|x l l' _ IH|x y l|l l' l'' _ IH1 _ IH2]; simpl.
  - reflexivity.
  - rewrite IH. reflexivity.
  - destruct (f x), (f y); reflexivity.
  - congruence.
Qed.

Lemma scoreFile_tokens_perm files qw1 qw2 ctx p fi :
  Permutation qw1 qw2 ->
  scoreFile files qw1 ctx p fi = scoreFile files qw2 ctx p fi.
Proof.
  intros P. unfold scoreFile, additive, filenameTerm, pathTerm, contentTerm,
    countMatches.
  rewrite (existsb_perm _ _ _ _ P).
  rewrite !(filter_length_perm _ _ _ _ P). reflexivity.
Qed.

Lemma calculateRelevance_pointwise files query1 ctx1 query2 ctx2 :
  (forall fs p fi, scoreFile fs (tokenize query1) ctx1 p fi
                   = scoreFile fs (tokenize query2) ctx2 p fi) ->
  calculateRelevance files query1 ctx1 = calculateRelevance files query2 ctx2.
Proof.
  intros E. unfold calculateRelevance. apply fold_left_pointwise.
  intros [fs sc] [p fi]. unfold relevanceStep. rewrite E. reflexivity.
Qed.

(** X4. Two queries with the same set of tokens give the same result of
    [calculateRelevance]: word order, repetition, letter case and
    punctuation of the query do not matter. *)
Theorem scores_depend_on_token_set (files : Catalog) (query1 query2 : string)
    (ctx : option (list string)) :
  (forall t, In t (tokenize query1) <-> In t (tokenize query2)) ->
  calculateRelevance files query1 ctx = calculateRelevance files query2 ctx.
Proof.
  intros H. apply calculateRelevance_pointwise. intros fs p fi.
  apply scoreFile_tokens_perm.
  apply NoDup_Permutation; try exact H;
    unfold tokenize; apply ofList_spec; constructor.
Qed.

Lemma scores_depend_on_token_set_witness :
  calculateRelevance budgetCatalog "Auth, BUG" None
  = calculateRelevance budgetCatalog "bug auth (auth)" None.
Proof.
  apply scores_depend_on_token_set.
  intros t. vm_compute. tauto.
Defined.

Lemma query_case_insensitive (files : Catalog) (query : string)
    (ctx : option (list string)) :
  calculateRelevance files (Str.toLowerCase query) ctx
  = calculateRelevance files query ctx.
Proof.
  apply calculateRelevance_pointwise. intros fs p fi.
  unfold tokenize. rewrite toLowerCase_idem. reflexivity.
Qed.

(** [contextFiles] *)

Lemma scoreFile_ctx files qw ctx p fi :
  scoreFile files qw ctx p fi
  = entryTerm (Str.toLowerCase (Str.basename p))
      (decay fi (Str.toLowerCase p)
         (Nat.iter (reachCount files p (orDefault ctx [])) add8
            (if Str.mem p (orDefault ctx [])
             then add (beforeReach qw None p fi) lit15
             else beforeReach qw None p fi))).
Proof.
  unfold scoreFile, additive. rewrite reachTerm_iter.
  unfold beforeReach, seedTerm.
  destruct ctx as [cf|]; reflexivity.
Qed.

Lemma mem_perm x l1 l2 : Permutation l1 l2 -> Str.mem x l1 = Str.mem x l2.
Proof. apply existsb_perm. Qed.

(** X5. Reordering [contextFiles] does not change the result of
    [calculateRelevance]. *)
Theorem context_order_irrelevant (files : Catalog) (query : string)
    (cf1 cf2 : list string) :
  Permutation cf1 cf2 ->
  calculateRelevance files query (Some cf1)
  = calculateRelevance files query (Some cf2).
Proof.
  intros P. apply calculateRelevance_pointwise. intros fs p fi.
  rewrite !scoreFile_ctx. simpl orDefault.
  unfold reachCount.
  rewrite (filter_length_perm _ _ _ _ P), (mem_perm p _ _ P). reflexivity.
Qed.

Lemma context_order_irrelevant_witness :
  calculateRelevance pyCatalog "client" (Some ["main.py"; "src/db/client.ts"])
  = calculateRelevance pyCatalog "client" (Some ["src/db/client.ts"; "main.py"]).
Proof.
  apply context_order_irrelevant. apply perm_swap.
Defined.

Lemma In_get_some (V : Type) k (v : V) m : In (k, v) m -> JsMap.get k m <> None.
Proof.
  induction m as [|[k' v'] m IH]; simpl; [tauto|].
  intros [E|H]; destruct (String.eqb_spec k k'); try discriminate.
  - inversion E; subst. contradiction.
  - apply IH, H.
Qed.

Lemma mem_filter x (f : string -> bool) l :
  f x = true -> Str.mem x (filter f l) = Str.mem x l.
Proof.
  intros Fx. induction l as [|y l IH]; simpl; [reflexivity|].
  destruct (f y) eqn:Fy; simpl.
  - rewrite IH. reflexivity.
  - rewrite IH. destruct (String.eqb_spec x y) as [->|]; [congruence | reflexivity].
Qed.

Lemma reachCount_present files p cf :
  reachCount files p (filter (inCatalog files) cf) = reachCount files p cf.
Proof.
  unfold reachCount. induction cf as [|c cf IH]; simpl; [reflexivity|].
  unfold inCatalog at 1, reaches at 2.
  destruct (JsMap.get c files) as [info|] eqn:G; simpl.
  - unfold reaches at 1. rewrite G.
    destruct (existsb _ (imports info)); simpl; rewrite IH; reflexivity.
  - exact IH.
Qed.

(** X6. Entries of [contextFiles] that name no catalog file have no
    effect on the result, and passing no [contextFiles] is the same as
    passing the empty list. *)
Theorem absent_context_ignored (files : Catalog) (query : string)
    (cf : list string) :
  JsMap.wf files ->
  calculateRelevance files query (Some cf)
  = calculateRelevance files query (Some (filter (inCatalog files) cf))
  /\ calculateRelevance files query None
     = calculateRelevance files query (Some []).
Proof.
  intros W. split.
  - rewrite !calculateRelevance_map by exact W.
    assert (E : forall e, In e files ->
      scoreFile files (tokenize query) (Some cf) (fst e) (snd e)
      = scoreFile files (tokenize query) (Some (filter (inCatalog files) cf))
          (fst e) (snd e)).
    { intros [p fi] H. simpl. rewrite !scoreFile_ctx. simpl orDefault.
      rewrite reachCount_present, mem_filter; [reflexivity|].
      unfold inCatalog. pose proof (In_get_some _ _ _ _ H) as G.
      destruct (JsMap.get p files); [reflexivity | contradiction]. }
    f_equal; apply map_ext_in; intros e H;
      unfold rescore, scoreEntry; rewrite (E e H); reflexivity.
  - apply calculateRelevance_pointwise. intros fs p fi. reflexivity.
Qed.

Lemma absent_context_ignored_witness :
  JsMap.wf pyCatalog /\
  calculateRelevance pyCatalog "client" (Some ["ghost.py"; "main.py"])
  = calculateRelevance pyCatalog "client" (Some ["main.py"]).
Proof.
  assert (W : JsMap.wf pyCatalog) by solve_wf.
  split; [exact W|].
  exact (proj1 (absent_context_ignored pyCatalog "client"
                  ["ghost.py"; "main.py"] W)).
Defined.

(** ** Scoring: the frame of the pass *)

Lemma get_map_values (V W : Type) (g : string -> V -> W) (m : JsMap.t V) k :
  JsMap.get k (map (fun e => (fst e, g (fst e) (snd e))) m)
  = option_map (g k) (JsMap.get k m).
Proof.
  induction m as [|[k' v] m IH]; simpl; [reflexivity|].
  destruct (String.eqb_spec k k') as [->|]; [reflexivity | exact IH].
Qed.

Lemma eraseScores_keys files : JsMap.keys (eraseScores files) = JsMap.keys files.
Proof. unfold eraseScores, JsMap.keys. rewrite map_map. reflexivity. Qed.

Lemma eraseScores_imports files : importsOf (eraseScores files) = importsOf files.
Proof. unfold eraseScores, importsOf. rewrite map_map. reflexivity. Qed.

Lemma rescore_erase F qw ctx files :
  map (rescore F qw ctx) (eraseScores files) = map (rescore F qw ctx) files.
Proof. unfold eraseScores. rewrite map_map. reflexivity. Qed.

Lemma scoreEntry_erase F qw ctx files :
  map (scoreEntry F qw ctx) (eraseScores files) = map (scoreEntry F qw ctx) files.
Proof. unfold eraseScores. rewrite map_map. reflexivity. Qed.

(** X7. The result of [calculateRelevance] does not depend on the
    [relevanceScore] fields found in the catalog: two catalogs that differ
    in those fields only give the same scores and the same catalog. *)
Theorem scores_ignore_stored_scores (files1 files2 : Catalog) (query : string)
    (ctx : option (list string)) :
  JsMap.wf files1 ->
  eraseScores files1 = eraseScores files2 ->
  calculateRelevance files1 query ctx = calculateRelevance files2 query ctx.
Proof.
  intros W1 E.
  assert (W2 : JsMap.wf files2).
  { unfold JsMap.wf. rewrite <- eraseScores_keys, <- E, eraseScores_keys. exact W1. }
  rewrite !calculateRelevance_map by assumption.
  assert (X : forall p fi, scoreFile files1 (tokenize query) ctx p fi
                           = scoreFile files2 (tokenize query) ctx p fi).
  { intros p fi. apply scoreFile_ext.
    rewrite <- eraseScores_imports, E, eraseScores_imports. reflexivity. }
  rewrite <- (rescore_erase files1 _ _ files1),
          <- (scoreEntry_erase files1 _ _ files1), E,
          rescore_erase, scoreEntry_erase.
  f_equal; apply map_ext; intros [p fi]; unfold rescore, scoreEntry; simpl;
    rewrite X; reflexivity.
Qed.

Lemma scores_ignore_stored_scores_witness :
  JsMap.wf (fst (calculateRelevance budgetCatalog "small" None)) /\
  calculateRelevance (fst (calculateRelevance budgetCatalog "small" None))
                     "auth" None
  = calculateRelevance budgetCatalog "auth" None.
Proof.
  assert (W : JsMap.wf (fst (calculateRelevance budgetCatalog "small" None)))
    by (vm_compute; solve_wf).
  split; [exact W|].
  apply (scores_ignore_stored_scores _ budgetCatalog "auth" None W).
  vm_compute. reflexivity.
Defined.

(** X8. [calculateRelevance] changes nothing but the [relevanceScore]
    fields: keys, order and all other fields of the catalog are kept; the
    returned map has the catalog's keys in catalog order, and the score it
    gives for a path is the one written to that path's record. *)
Theorem calculateRelevance_frame (files : Catalog) (query : string)
    (ctx : option (list string)) :
  JsMap.wf files ->
  let files' := fst (calculateRelevance files query ctx) in
  let scores := snd (calculateRelevance files query ctx) in
  JsMap.keys files' = JsMap.keys files
  /\ JsMap.keys scores = JsMap.keys files
  /\ eraseScores files' = eraseScores files
  /\ (forall p, JsMap.get p scores
                = option_map relevanceScore (JsMap.get p files')).
Proof.
  intros W files' scores. unfold files', scores.
  rewrite calculateRelevance_map by exact W. simpl.
  split; [apply keys_rescore|]. split; [apply keys_scoreEntry|]. split.
  - unfold eraseScores. rewrite map_map. reflexivity.
  - intros p. unfold rescore, scoreEntry.
    rewrite (get_map_values FileInfo number
               (fun k v => scoreFile files (tokenize query) ctx k v)).
    rewrite (get_map_values FileInfo FileInfo
               (fun k v => setScore v (scoreFile files (tokenize query) ctx k v))).
    destruct (JsMap.get p files); reflexivity.
Qed.

Lemma calculateRelevance_frame_witness :
  JsMap.wf budgetCatalog /\
  eraseScores (fst (calculateRelevance budgetCatalog "auth" None))
  = eraseScores budgetCatalog.
Proof.
  assert (W : JsMap.wf budgetCatalog) by solve_wf.
  split; [exact W|].
  exact (proj1 (proj2 (proj2 (calculateRelevance_frame budgetCatalog "auth" None W)))).
Defined.

(** ** File name and path *)

Lemma substr_refl s : substr s s.
Proof. exists ""%string, ""%string. simpl. induction s; simpl; congruence. Qed.

Lemma append_nil_r (s : string) : (s ++ "")%string = s.
Proof. induction s; simpl; congruence. Qed.

Lemma substr_trans a b c : substr a b -> substr b c -> substr a c.
Proof.
  intros [p1 [q1 E1]] [p2 [q2 E2]]. exists (p2 ++ p1)%string, (q1 ++ q2)%string.
  subst. rewrite !append_assoc. reflexivity.
Qed.

Lemma suffix_substr t s : suffix t s -> substr t s.
Proof. intros [pre E]. exists pre, ""%string. rewrite append_nil_r. exact E. Qed.

Lemma substr_app_r a s c : substr a s -> substr a (s ++ c)%string.
Proof.
  intros [p [q E]]. exists p, (q ++ c)%string. subst. rewrite !append_assoc. reflexivity.
Qed.

Lemma basenameFrom_substr : forall s done last cur,
  substr last done -> suffix cur done ->
  substr (Str.basenameFrom s last cur) (done ++ s)%string.
Proof.
  induction s as [|c s IH]; intros done last cur L C; simpl.
  - rewrite append_nil_r. destruct (Str.isEmpty cur); [exact L | apply suffix_substr, C].
  - replace (done ++ String c s)%string with ((done ++ String c "") ++ s)%string
      by (rewrite append_assoc; reflexivity).
    destruct (Ascii.eqb c Str.slash).
    + apply IH.
      * apply substr_app_r. destruct (Str.isEmpty cur); [exact L | apply suffix_substr, C].
      * exists (done ++ String c "")%string. rewrite append_nil_r. reflexivity.
    + apply IH.
      * apply substr_app_r, L.
      * destruct C as [pre ->]. exists pre. rewrite append_assoc. reflexivity.
Qed.

Lemma basename_substr p : substr (Str.basename p) p.
Proof.
  apply (basenameFrom_substr p ""%string ""%string ""%string).
  - apply substr_refl.
  - apply suffix_refl.
Qed.

Lemma toLowerCase_append a b :
  Str.toLowerCase (a ++ b) = (Str.toLowerCase a ++ Str.toLowerCase b)%string.
Proof. induction a as [|c a IH]; simpl; [reflexivity | rewrite IH; reflexivity]. Qed.

Lemma toLowerCase_substr g s :
  substr g s -> substr (Str.toLowerCase g) (Str.toLowerCase s).
Proof.
  intros [pre [post ->]]. exists (Str.toLowerCase pre), (Str.toLowerCase post).
  rewrite !toLowerCase_append. reflexivity.
Qed.

Lemma filename_in_path p word :
  Str.includes (Str.toLowerCase (Str.basename p)) word = true ->
  Str.includes (Str.toLowerCase p) word = true.
Proof.
  rewrite !includes_substring. intros H.
  eapply substr_trans; [exact H|]. apply toLowerCase_substr, basename_substr.
Qed.

(** X9. Whenever the file-name term fires, the path term counts at least
    one word: a query word found in the base name is found in the path. *)
Theorem filename_match_is_path_match (qw : JsSet.t) (p : string) :
  existsb (fun word => Str.includes (Str.toLowerCase (Str.basename p)) word) qw
  = true ->
  1 <= countMatches qw (Str.toLowerCase p).
Proof.
  unfold countMatches. induction qw as [|w qw IH]; simpl; [discriminate|].
  destruct (Str.includes (Str.toLowerCase (Str.basename p)) w) eqn:E; simpl.
  - rewrite (filename_in_path _ _ E). simpl. lia.
  - intros H. specialize (IH H). destruct (Str.includes (Str.toLowerCase p) w); simpl; lia.
Qed.

Lemma filename_match_is_path_match_witness :
  1 <= countMatches (tokenize "Auth bug") (Str.toLowerCase "src/Auth_handler.py").
Proof.
  apply (filename_match_is_path_match (tokenize "Auth bug") "src/Auth_handler.py").
  reflexivity.
Defined.

(** ** Unrelated files *)

Lemma mul_zero_lits :
  mul zero lit0_5 = zero /\ mul zero lit0_7 = zero /\ mul zero lit0_8 = zero.
Proof. repeat split. Qed.

Lemma countMatches_none qw text :
  (forall w, In w qw -> Str.includes text w = false) ->
  countMatches qw text = 0.
Proof.
  unfold countMatches. induction qw as [|w l IH]; simpl; intros Ht; [reflexivity|].
  rewrite (Ht w (or_introl eq_refl)). apply IH.
  intros w' Hw'. apply Ht. right. exact Hw'.
Qed.

(** X10. A catalog file whose path and content contain no query token,
    that is no context file, is reached by no seed and has no entry-point
    name gets the score [+0] exactly, whatever its category. *)
Theorem unrelated_file_scores_zero (files : Catalog) (query : string)
    (ctx : option (list string)) (p : string) (fi : FileInfo) :
  JsMap.wf files -> In (p, fi) files ->
  (forall w, In w (tokenize query) ->
     Str.includes (Str.toLowerCase p) w = false
     /\ Str.includes (Str.toLowerCase (content fi)) w = false) ->
  Str.mem p (orDefault ctx []) = false ->
  reachCount files p (orDefault ctx []) = 0 ->
  isEntryPoint (Str.toLowerCase (Str.basename p)) = false ->
  JsMap.get p (snd (calculateRelevance files query ctx)) = Some zero.
Proof.
  intros W H T S R E.
  pose proof (countMatches_none (tokenize query)) as C.
  assert (B : beforeReach (tokenize query) None p fi = zero).
  { unfold beforeReach, seedTerm, contentTerm, pathTerm, filenameTerm.
    rewrite (C (Str.toLowerCase p)) by (intros w Hw; apply (T w Hw)).
    rewrite (C (Str.toLowerCase (content fi))) by (intros w Hw; apply (T w Hw)).
    destruct (existsb _ (tokenize query)) eqn:X; [|reflexivity].
    exfalso. apply existsb_exists in X. destruct X as [w [Hw Iw]].
    apply filename_in_path in Iw. rewrite (proj1 (T w Hw)) in Iw. discriminate. }
  rewrite (scores_get files query ctx p fi W H), scoreFile_ctx, B, S, R.
  unfold entryTerm. rewrite E.
  change (Nat.iter 0 add8 zero) with zero.
  destruct (decay_cases fi (Str.toLowerCase p) zero) as [D|[D|[D|D]]];
    rewrite D; reflexivity.
Qed.

Lemma unrelated_file_scores_zero_witness :
  JsMap.get "src/db/client.ts"
    (snd (calculateRelevance seedCatalog "router" (Some ["api.ts"]))) = Some zero.
Proof.
  assert (W : JsMap.wf seedCatalog) by solve_wf.
  apply (unrelated_file_scores_zero seedCatalog "router" (Some ["api.ts"])
           "src/db/client.ts" clientFile W).
  - simpl. tauto.
  - intros w Hw. vm_compute in Hw. destruct Hw as [<-|[]]. split; reflexivity.
  - reflexivity.
  - reflexivity.
  - reflexivity.
Defined.

(** ** The walk, case by case *)

Lemma selectStep_cases maxTok minF sel tot f :
  (selectStep maxTok minF (sel, tot) f = Break
   /\ score0 f /\ (minF <= Z.of_nat (List.length sel))%Z)
  \/ (selectStep maxTok minF (sel, tot) f
      = Next (sel ++ [f], (tot + fileTokens f)%Z)
      /\ ((tot + fileTokens f <= maxTok)%Z \/ (Z.of_nat (List.length sel) < minF)%Z)
      /\ (isZero (relevanceScore f) = false \/ (Z.of_nat (List.length sel) < minF)%Z))
  \/ (selectStep maxTok minF (sel, tot) f = Next (sel, tot)
      /\ (minF <= Z.of_nat (List.length sel))%Z
      /\ (maxTok < tot + fileTokens f)%Z
      /\ isZero (relevanceScore f) = false).
Proof.
  unfold selectStep, score0.
  destruct (isZero (relevanceScore f)) eqn:Z0;
    destruct (Z.leb_spec minF (Z.of_nat (List.length sel))) as [F|F]; simpl;
    destruct (Z.leb_spec (tot + fileTokens f) maxTok) as [B|B];
    destruct (Z.ltb_spec (Z.of_nat (List.length sel)) minF) as [G|G];
    try lia; intuition.
Qed.

Lemma subseq_refl (A : Type) (l : list A) : subseq l l.
Proof. induction l; constructor; assumption. Qed.

Lemma subseq_nil_l (A : Type) (l : list A) : subseq [] l.
Proof. induction l; constructor; assumption. Qed.

Lemma subseq_In (A : Type) (l1 l2 : list A) x : subseq l1 l2 -> In x l1 -> In x l2.
Proof.
  induction 1 as [|y l1 l2 _ IH|y l1 l2 _ IH]; simpl; intuition.
Qed.

Lemma subseq_length (A : Type) (l1 l2 : list A) :
  subseq l1 l2 -> List.length l1 <= List.length l2.
Proof. induction 1; simpl; lia. Qed.

(** The walk appends to [selected] a subsequence of the candidates and
    adds their costs to [totalTokens]. *)
Lemma selectLoop_picks maxTok minF : forall l sel tot,
  exists picked,
    selectLoop maxTok minF l (sel, tot)
    = (sel ++ picked, (tot + sumTokens picked)%Z)
    /\ subseq picked l.
Proof.
  induction l as [|f l IH]; intros sel tot.
  - exists []. simpl. rewrite app_nil_r, Z.add_0_r. split; [reflexivity | constructor].
  - rewrite selectLoop_cons.
    destruct (selectStep_cases maxTok minF sel tot f) as [[E _]|[[E _]|[E _]]];
      rewrite E.
    + exists []. simpl. rewrite app_nil_r, Z.add_0_r.
      split; [reflexivity | apply subseq_nil_l].
    + destruct (IH (sel ++ [f]) (tot + fileTokens f)%Z) as [picked [E' S]].
      exists (f :: picked). rewrite E', <- app_assoc. simpl.
      split; [f_equal; lia | constructor; exact S].
    + destruct (IH sel tot) as [picked [E' S]].
      exists picked. split; [exact E' | constructor; exact S].
Qed.

Lemma insert_perm x : forall l, Permutation (insert byScoreDesc x l) (x :: l).
Proof.
  induction l as [|y l IH]; simpl; [apply Permutation_refl|].
  destruct (gt0 (byScoreDesc x y)); [|apply Permutation_refl].
  eapply Permutation_trans; [apply perm_skip, IH | apply perm_swap].
Qed.

Lemma sort_perm l : Permutation (sort byScoreDesc l) l.
Proof.
  induction l as [|x l IH]; simpl; [constructor|].
  eapply Permutation_trans; [apply insert_perm | apply perm_skip, IH].
Qed.

(** X11. The selection is a subsequence of the sorted list, which is a
    permutation of the scored catalog records: every selected record is a
    record of the catalog, in sorted order and taken at most once per
    position. *)
Theorem selection_from_catalog (files : Catalog) (query : string)
    (config : ContextConfig) :
  let result := getOptimalContext files query config in
  subseq (snd result) (sortedFiles files query config)
  /\ Permutation (sortedFiles files query config) (JsMap.values (fst result))
  /\ (forall f, In f (snd result) -> In f (JsMap.values (fst result))).
Proof.
  intros result.
  assert (S : subseq (snd result) (sortedFiles files query config)).
  { unfold result, getOptimalContext, sortedFiles. simpl.
    match goal with |- context [selectLoop ?a ?b ?l ([], 0%Z)] =>
      destruct (selectLoop_picks a b l [] 0%Z) as [picked [E P]]; rewrite E
    end. exact P. }
  assert (P : Permutation (sortedFiles files query config)
                          (JsMap.values (fst result))).
  { unfold result, getOptimalContext, sortedFiles. simpl. apply sort_perm. }
  split; [exact S|]. split; [exact P|].
  intros f H. eapply Permutation_in; [exact P|].
  eapply subseq_In; eauto.
Qed.

Lemma selection_from_catalog_witness :
  In (nth 0 (snd (getOptimalContext budgetCatalog "auth" tightConfig)) bigFile)
     (JsMap.values (fst (getOptimalContext budgetCatalog "auth" tightConfig))).
Proof.
  apply (proj2 (proj2 (selection_from_catalog budgetCatalog "auth" tightConfig))).
  vm_compute. left. reflexivity.
Defined.

(** ** Floor and budget *)

Lemma selectLoop_floor maxTok minF : forall l sel tot,
  (Z.min minF (Z.of_nat (List.length sel + List.length l))
   <= Z.of_nat (List.length (fst (selectLoop maxTok minF l (sel, tot)))))%Z.
Proof.
  induction l as [|f l IH]; intros sel tot.
  - simpl. rewrite Nat.add_0_r. lia.
  - rewrite selectLoop_cons.
    destruct (selectStep_cases maxTok minF sel tot f)
      as [[E [_ F]]|[[E _]|[E [F _]]]]; rewrite E.
    + simpl. lia.
    + specialize (IH (sel ++ [f]) (tot + fileTokens f)%Z).
      rewrite length_app in IH. simpl in *. 
      replace (List.length sel + S (List.length l))
        with (List.length sel + 1 + List.length l) by lia. exact IH.
    + specialize (IH sel tot). simpl. lia.
Qed.

Lemma calculateRelevance_length files query ctx :
  JsMap.wf files ->
  List.length (JsMap.values (fst (calculateRelevance files query ctx)))
  = List.length files.
Proof.
  intros W. rewrite calculateRelevance_map by exact W. simpl.
  unfold JsMap.values. rewrite !length_map. reflexivity.
Qed.

Lemma sorted_length files query ctx :
  JsMap.wf files ->
  List.length (sort byScoreDesc
                 (JsMap.values (fst (calculateRelevance files query ctx))))
  = List.length files.
Proof.
  intros W. rewrite (Permutation_length (sort_perm _)).
  apply calculateRelevance_length, W.
Qed.

(** X12. The selection holds at least [min(minFiles, catalog size)]
    files and at most as many files as the catalog. *)
Theorem selection_meets_floor (files : Catalog) (query : string)
    (config : ContextConfig) :
  JsMap.wf files ->
  (Z.min (orDefault (minFiles config) 3%Z) (Z.of_nat (List.length files))
   <= Z.of_nat (List.length (snd (getOptimalContext files query config))))%Z
  /\ List.length (snd (getOptimalContext files query config))
     <= List.length files.
Proof.
  intros W. unfold getOptimalContext. simpl. split.
  - match goal with |- context [selectLoop ?a ?b ?l ([], 0%Z)] =>
      pose proof (selectLoop_floor a b l [] 0%Z) as H end.
    simpl in H. rewrite (sorted_length _ _ _ W) in H. exact H.
  - match goal with |- context [selectLoop ?a ?b ?l ([], 0%Z)] =>
      destruct (selectLoop_picks a b l [] 0%Z) as [picked [E P]]; rewrite E end.
    simpl. apply subseq_length in P. rewrite (sorted_length _ _ _ W) in P. exact P.
Qed.

Lemma selection_meets_floor_witness :
  JsMap.wf idleCatalog /\
  (3 <= Z.of_nat (List.length
                    (snd (getOptimalContext idleCatalog "auth" floorConfig))))%Z.
Proof.
  assert (W : JsMap.wf idleCatalog) by solve_wf.
  split; [exact W|].
  exact (proj1 (selection_meets_floor idleCatalog "auth" floorConfig W)).
Defined.

Lemma selectLoop_budget maxTok minF : forall l sel tot,
  ((tot <= maxTok)%Z \/ (Z.of_nat (List.length sel) <= minF)%Z) ->
  (snd (selectLoop maxTok minF l (sel, tot)) <= maxTok)%Z
  \/ (Z.of_nat (List.length (fst (selectLoop maxTok minF l (sel, tot)))) <= minF)%Z.
Proof.
  induction l as [|f l IH]; intros sel tot I.
  - exact I.
  - rewrite selectLoop_cons.
    destruct (selectStep_cases maxTok minF sel tot f)
      as [[E _]|[[E [B _]]|[E _]]]; rewrite E.
    + exact I.
    + apply IH. rewrite length_app. simpl. lia.
    + apply IH, I.
Qed.

Lemma fold_left_tokens l : forall a,
  fold_left (fun sum f => (sum + fileTokens f)%Z) l a = (a + sumTokens l)%Z.
Proof.
  induction l as [|f l IH]; intros a; simpl; [lia|].
  rewrite IH. lia.
Qed.

(** X13. [exportContext] of the selection reports as [estimatedTokens]
    the running total of the selection loop; when [maxTokens] or [minFiles]
    is not negative, that total exceeds [maxTokens] only if the selection
    holds at most [minFiles] files. *)
Theorem export_within_budget (files : Catalog) (query : string)
    (config : ContextConfig) :
  let maxTok := orDefault (maxTokens config) 100000%Z in
  let minF := orDefault (minFiles config) 3%Z in
  let selected := snd (getOptimalContext files query config) in
  let out := exportContext query selected in
  ((0 <= maxTok)%Z \/ (0 <= minF)%Z) ->
  List.length (Out.files out) = List.length selected
  /\ Out.estimatedTokens out
     = snd (selectLoop maxTok minF (sortedFiles files query config) ([], 0%Z))
  /\ ((Out.estimatedTokens out <= maxTok)%Z
      \/ (Z.of_nat (List.length selected) <= minF)%Z).
Proof.
  intros maxTok minF selected out H.
  assert (E : Out.estimatedTokens out
              = snd (selectLoop maxTok minF (sortedFiles files query config)
                       ([], 0%Z))).
  { unfold out, exportContext, selected, getOptimalContext. simpl.
    fold (sortedFiles files query config). fold maxTok. fold minF.
    destruct (selectLoop_picks maxTok minF (sortedFiles files query config)
                [] 0%Z) as [picked [E _]].
    rewrite E. simpl. apply fold_left_tokens. }
  split; [unfold out, exportContext; simpl; apply length_map|].
  split; [exact E|]. rewrite E.
  apply (selectLoop_budget maxTok minF (sortedFiles files query config) [] 0%Z).
  simpl. lia.
Qed.

Lemma export_within_budget_witness :
  (Out.estimatedTokens
     (exportContext "auth"
        (snd (getOptimalContext budgetCatalog "auth" tightConfig))) <= 5)%Z
  \/ (Z.of_nat (List.length
                  (snd (getOptimalContext budgetCatalog "auth" tightConfig)))
      <= 1)%Z.
Proof.
  apply (export_within_budget budgetCatalog "auth" tightConfig).
  left. simpl. lia.
Defined.

Lemma selectLoop_beyond_floor maxTok minF : forall l sel tot,
  beyondFloorNonzero minF sel ->
  beyondFloorNonzero minF (fst (selectLoop maxTok minF l (sel, tot))).
Proof.
  induction l as [|f l IH]; intros sel tot P.
  - exact P.
  - rewrite selectLoop_cons.
    destruct (selectStep_cases maxTok minF sel tot f)
      as [[E _]|[[E [_ B]]|[E _]]]; rewrite E.
    + exact P.
    + apply IH. intros i g N F.
      destruct (Nat.lt_ge_cases i (List.length sel)) as [L|L].
      * rewrite nth_error_app1 in N by exact L. apply (P i g N F).
      * rewrite nth_error_app2 in N by exact L.
        destruct (i - List.length sel) as [|k] eqn:K; simpl in N.
        -- inversion N; subst g. destruct B as [B|B]; [exact B | lia].
        -- destruct k; discriminate N.
    + apply IH, P.
Qed.

(** X14. A file selected at a position from [minFiles] on never has
    score 0: files of score 0 only fill the floor. *)
Theorem zero_scores_only_fill_floor (files : Catalog) (query : string)
    (config : ContextConfig) (i : nat) (f : FileInfo) :
  nth_error (snd (getOptimalContext files query config)) i = Some f ->
  (orDefault (minFiles config) 3%Z <= Z.of_nat i)%Z ->
  isZero (relevanceScore f) = false.
Proof.
  unfold getOptimalContext. simpl.
  match goal with |- context [selectLoop ?a ?b ?l ([], 0%Z)] =>
    pose proof (selectLoop_beyond_floor a b l [] 0%Z) as H end.
  intros N F. apply (H ltac:(intros [|j] g Hj; discriminate Hj) i f N F).
Qed.

Lemma zero_scores_only_fill_floor_witness :
  isZero (relevanceScore
            (nth 1 (snd (getOptimalContext budgetCatalog "auth" tightConfig))
                 bigFile)) = false.
Proof.
  apply (zero_scores_only_fill_floor budgetCatalog "auth" tightConfig 1).
  - vm_compute. reflexivity.
  - simpl. lia.
Defined.

(** ** When everything fits *)

Lemma fileTokens_nonneg f : (0 <= fileTokens f)%Z.
Proof. unfold fileTokens. apply Z.div_pos; lia. Qed.

Lemma sumTokens_nonneg l : (0 <= sumTokens l)%Z.
Proof.
  induction l as [|f l IH]; simpl; [lia|].
  pose proof (fileTokens_nonneg f). lia.
Qed.

Lemma sumTokens_perm l1 l2 : Permutation l1 l2 -> sumTokens l1 = sumTokens l2.
Proof.
  induction 1 as [|x l l' _ IH|x y l|l l' l'' _ IH1 _ IH2]; simpl; lia.
Qed.

Lemma selectLoop_keeps maxTok minF l sel tot x :
  In x sel -> In x (fst (selectLoop maxTok minF l (sel, tot))).
Proof.
  intros H. destruct (selectLoop_picks maxTok minF l sel tot) as [picked [E _]].
  rewrite E. simpl. apply in_or_app. left. exact H.
Qed.

Lemma selectLoop_all_fit maxTok minF : forall l sel tot,
  zeroTail l ->
  (tot + sumTokens l <= maxTok)%Z ->
  forall f, In f l -> isZero (relevanceScore f) = false ->
            In f (fst (selectLoop maxTok minF l (sel, tot))).
Proof.
  induction l as [|f0 l IH]; intros sel tot Z B f I N; [contradiction|].
  simpl in Z, B. destruct Z as [Z0 Z].
  pose proof (fileTokens_nonneg f0). pose proof (sumTokens_nonneg l).
  rewrite selectLoop_cons.
  destruct (selectStep_cases maxTok minF sel tot f0)
    as [[E [S0 _]]|[[E _]|[E [_ [O _]]]]]; rewrite E.
  - exfalso. destruct I as [->|I].
    + unfold score0 in S0. congruence.
    + specialize (Z0 S0). rewrite Forall_forall in Z0.
      specialize (Z0 f I). unfold score0 in Z0. congruence.
  - destruct I as [->|I].
    + apply selectLoop_keeps. apply in_or_app. right. left. reflexivity.
    + apply IH; try assumption. lia.
  - lia.
Qed.

Lemma sumTokens_rescore files qw ctx l :
  sumTokens (JsMap.values (map (rescore files qw ctx) l))
  = sumTokens (JsMap.values l).
Proof.
  induction l as [|[p fi] l IH]; simpl; [reflexivity|].
  rewrite IH. reflexivity.
Qed.

(** X15. When the estimated tokens of the whole catalog fit in
    [maxTokens], every catalog file of non-zero score is selected. *)
Theorem everything_fits (files : Catalog) (query : string)
    (config : ContextConfig) (f : FileInfo) :
  JsMap.wf files ->
  (sumTokens (JsMap.values files) <= orDefault (maxTokens config) 100000%Z)%Z ->
  In f (JsMap.values (fst (getOptimalContext files query config))) ->
  isZero (relevanceScore f) = false ->
  In f (snd (getOptimalContext files query config)).
Proof.
  intros W B I N. unfold getOptimalContext in *. simpl in *.
  set (ctx := Some (orDefault (contextFiles config) [])) in *.
  apply selectLoop_all_fit.
  - apply sort_zeroTail, scored_values_nonneg, W.
  - rewrite (sumTokens_perm _ _ (sort_perm _)).
    rewrite calculateRelevance_map by exact W. simpl.
    rewrite sumTokens_rescore. simpl. exact B.
  - eapply Permutation_in; [apply Permutation_sym, sort_perm | exact I].
  - exact N.
Qed.

Lemma everything_fits_witness :
  JsMap.wf budgetCatalog /\
  map path (snd (getOptimalContext budgetCatalog "big" roomyConfig))
  = ["src/big.ts"] /\
  In (nth 0 (JsMap.values (fst (getOptimalContext budgetCatalog "big" roomyConfig)))
        bigFile)
     (snd (getOptimalContext budgetCatalog "big" roomyConfig)).
Proof.
  assert (W : JsMap.wf budgetCatalog) by solve_wf.
  split; [exact W|]. split; [vm_compute; reflexivity|].
  apply (everything_fits budgetCatalog "big" roomyConfig _ W).
  - vm_compute. discriminate.
  - vm_compute. left. reflexivity.
  - vm_compute. reflexivity.
Defined.

(** ** The sorted list has no inversion *)

Lemma binary_round_aux_neg p e m ex l :
  gt0 (binary_round_aux p e true m ex l) = false.
Proof.
  unfold binary_round_aux.
  destruct (shr_fexp p e m ex l) as [mrs' e'].
  destruct (shr_fexp p e _ e' loc_Exact) as [mrs'' e''].
  destruct (shr_m mrs'') as [|q|q]; try reflexivity.
  destruct (e'' <=? e - p)%Z; reflexivity.
Qed.

Lemma binary_round_neg p e m ex : gt0 (binary_round p e true m ex) = false.
Proof.
  unfold binary_round. destruct (shl_align m ex _) as [mz ez].
  apply binary_round_aux_neg.
Qed.

Lemma binary_normalize_nonpos p e z ex :
  (z <= 0)%Z -> gt0 (binary_normalize p e z ex false) = false.
Proof.
  destruct z as [|q|q]; simpl; intros H; try reflexivity; try lia.
  apply binary_round_neg.
Qed.

Lemma sub_antisym x y :
  nonneg x -> nonneg y -> gt0 (sub y x) = true -> gt0 (sub x y) = false.
Proof.
  destruct x as [[|]|[|]| |[|] mx ex]; simpl; try contradiction;
    destruct y as [[|]|[|]| |[|] my ey]; simpl; try contradiction;
    intros _ _; try reflexivity; try discriminate.
  unfold sub, SFsub. simpl cond_Zopp. rewrite (Z.min_comm ex ey).
  set (a := fst (shl_align mx ex (Z.min ey ex))).
  set (b := fst (shl_align my ey (Z.min ey ex))).
  destruct (Z.lt_trichotomy (Z.pos a) (Z.pos b)) as [L|[L|L]].
  - intros _. apply binary_normalize_nonpos.
    change (Z.pos a + Z.neg b <= 0)%Z. lia.
  - intros H. rewrite binary_normalize_nonpos in H; [discriminate H|].
    change (Z.pos b + Z.neg a <= 0)%Z. lia.
  - intros H. rewrite binary_normalize_nonpos in H; [discriminate H|].
    change (Z.pos b + Z.neg a <= 0)%Z. lia.
Qed.

Lemma insert_head x l :
  exists t, insert byScoreDesc x l = x :: t
            \/ (exists y l', l = y :: l' /\ insert byScoreDesc x l = y :: t).
Proof.
  destruct l as [|y l]; simpl.
  - exists []. left. reflexivity.
  - destruct (gt0 (byScoreDesc x y)).
    + exists (insert byScoreDesc x l). right. exists y, l. split; reflexivity.
    + exists (y :: l). left. reflexivity.
Qed.

Lemma noInversion_cons a l :
  noInversion l ->
  (forall b t, l = b :: t -> gt0 (byScoreDesc a b) = false) ->
  noInversion (a :: l).
Proof.
  intros N H. destruct l as [|b t]; simpl; [exact I|].
  split; [apply (H b t eq_refl) | exact N].
Qed.

Lemma insert_noInversion x : forall l,
  scoreNonneg x -> Forall scoreNonneg l -> noInversion l ->
  noInversion (insert byScoreDesc x l).
Proof.
  induction l as [|y l IH]; intros Hx Hl N; [exact I|].
  inversion Hl as [|? ? Hy Hl']; subst.
  cbn [insert]. destruct (gt0 (byScoreDesc x y)) eqn:G.
  - assert (N' : noInversion l) by (destruct l; [exact I | apply N]).
    apply noInversion_cons; [apply IH; assumption|].
    intros b t E.
    destruct (insert_head x l) as [t' [E'|[z [l' [El E']]]]];
      rewrite E' in E; inversion E; subst.
    + apply sub_antisym; assumption.
    + apply N.
  - apply noInversion_cons; [exact N|].
    intros b t E. inversion E; subst. exact G.
Qed.

Lemma sort_noInversion l :
  Forall scoreNonneg l -> noInversion (sort byScoreDesc l).
Proof.
  induction 1 as [|x l Hx Hl IH]; simpl; [exact I|].
  apply insert_noInversion; try assumption. apply Forall_sort, Hl.
Qed.

(** X16. In the sorted list no record is directly followed by one of
    greater score (one for which the comparator is positive). *)
Theorem sorted_no_inversion (files : Catalog) (query : string)
    (config : ContextConfig) :
  JsMap.wf files ->
  noInversion (sortedFiles files query config).
Proof.
  intros W. unfold sortedFiles. apply sort_noInversion, scored_values_nonneg, W.
Qed.

Lemma sorted_no_inversion_witness :
  JsMap.wf budgetCatalog /\
  noInversion (sortedFiles budgetCatalog "auth" tightConfig).
Proof.
  assert (W : JsMap.wf budgetCatalog) by solve_wf.
  split; [exact W | exact (sorted_no_inversion budgetCatalog "auth" tightConfig W)].
Defined.

Scheme fsNode_mut := Induction for fsNode Sort Prop
  with dirListing_mut := Induction for dirListing Sort Prop
  with fsEntries_mut := Induction for fsEntries Sort Prop.

Section ScanFacts.
Variable join : string -> string -> string.
Variable relative : string -> string -> string.
Variable rootPath : string.
Variable maxFileSize : Z.

Let run := runCall relative rootPath maxFileSize.

Lemma scanDirectory_calls listing : forall dirPath files,
  scanDirectory join relative rootPath dirPath maxFileSize listing files
  = fold_left run (dirCalls join dirPath listing) files.
Proof.
  induction listing using dirListing_mut with
    (P := fun node => forall fullPath files,
            match node with
            | FsDir l =>
                scanDirectory join relative rootPath fullPath maxFileSize l files
                = fold_left run (dirCalls join fullPath l) files
            | _ => True
            end)
    (P1 := fun entries => forall dirPath files,
            scanEntries join relative rootPath dirPath maxFileSize entries files
            = fold_left run (entriesCalls join dirPath entries) files).
  - intros; exact I.
  - intros fullPath files. apply IHlisting.
  - intros; exact I.
  - intros dirPath files. reflexivity.
  - intros dirPath files. simpl. apply IHlisting.
  - intros dirPath files. reflexivity.
  - intros dirPath files. simpl.
    destruct (shouldIgnore (join dirPath name)); [apply IHlisting0|].
    destruct child as [stat data|l|].
    + rewrite IHlisting0. reflexivity.
    + rewrite fold_left_app, IHlisting0.
      specialize (IHlisting (join dirPath name) files). simpl in IHlisting.
      rewrite IHlisting. reflexivity.
    + apply IHlisting0.
Qed.

Lemma dirCalls_not_ignored listing : forall dirPath,
  Forall (fun c => shouldIgnore (fst (fst c)) = false)
         (dirCalls join dirPath listing).
Proof.
  induction listing using dirListing_mut with
    (P := fun node => forall fullPath,
            match node with
            | FsDir l => Forall (fun c => shouldIgnore (fst (fst c)) = false)
                                (dirCalls join fullPath l)
            | _ => True
            end)
    (P1 := fun entries => forall dirPath,
            Forall (fun c => shouldIgnore (fst (fst c)) = false)
                   (entriesCalls join dirPath entries)).
  - intros; exact I.
  - intros fullPath. apply IHlisting.
  - intros; exact I.
  - intros dirPath. constructor.
  - intros dirPath. simpl. apply IHlisting.
  - intros dirPath. constructor.
  - intros dirPath. simpl.
    destruct (shouldIgnore (join dirPath name)) eqn:E; [apply IHlisting0|].
    destruct child as [stat data|l|].
    + constructor; [exact E | apply IHlisting0].
    + apply Forall_app. split; [apply (IHlisting (join dirPath name)) | apply IHlisting0].
    + apply IHlisting0.
Qed.

End ScanFacts.

(** ** Facts on [Map.set] *)

Section SetFacts.
Variable V : Type.
Implicit Types (m : JsMap.t V) (k : string) (v : V).

Lemma keys_set k v m :
  JsMap.keys (JsMap.set k v m)
  = if Str.mem k (JsMap.keys m) then JsMap.keys m else JsMap.keys m ++ [k].
Proof.
  induction m as [|[k' v'] m IH]; simpl; [reflexivity|].
  destruct (String.eqb_spec k k') as [->|N]; simpl; [reflexivity|].
  rewrite IH. unfold Str.mem. destruct (existsb _ (JsMap.keys m)); reflexivity.
Qed.

Lemma add_NoDup_keys (l : list string) k : NoDup l -> ~ In k l -> NoDup (l ++ [k]).
Proof.
  intros N H. apply NoDup_rev in N. rewrite <- (rev_involutive (l ++ [k])).
  apply NoDup_rev. rewrite rev_app_distr. simpl. constructor; [|exact N].
  rewrite <- in_rev. exact H.
Qed.

Lemma set_wf k v m : JsMap.wf m -> JsMap.wf (JsMap.set k v m).
Proof.
  unfold JsMap.wf. rewrite keys_set. intros W.
  destruct (Str.mem k (JsMap.keys m)) eqn:E; [exact W|].
  apply mem_not_In in E. apply add_NoDup_keys; assumption.
Qed.

Lemma get_set k' k v m :
  JsMap.get k' (JsMap.set k v m)
  = if String.eqb k' k then Some v else JsMap.get k' m.
Proof.
  induction m as [|[k0 v0] m IH]; simpl; [reflexivity|].
  destruct (String.eqb_spec k k0) as [->|N]; simpl.
  - destruct (String.eqb k' k0); reflexivity.
  - rewrite IH. destruct (String.eqb_spec k' k0) as [->|N'].
    + destruct (String.eqb_spec k0 k); [congruence | reflexivity].
    + reflexivity.
Qed.

Lemma In_set k' v' k v m :
  In (k', v') (JsMap.set k v m) -> (k' = k /\ v' = v) \/ In (k', v') m.
Proof.
  induction m as [|[k0 v0] m IH]; simpl.
  - intros [E|[]]. inversion E. tauto.
  - destruct (String.eqb_spec k k0) as [->|N]; simpl.
    + intros [E|H]; [inversion E|]; tauto.
    + intros [E|H]; [tauto|]. apply IH in H. tauto.
Qed.

Lemma get_not_key k m : ~ In k (JsMap.keys m) -> JsMap.get k m = None.
Proof.
  induction m as [|[k0 v0] m IH]; simpl; [reflexivity|].
  intros H. destruct (String.eqb_spec k k0) as [->|N]; [tauto|].
  apply IH. tauto.
Qed.

(** Two maps with the same keys in the same order and the same lookups
    are the same map. *)
Lemma map_ext_keys m1 : forall m2,
  JsMap.wf m1 ->
  JsMap.keys m1 = JsMap.keys m2 ->
  (forall k, JsMap.get k m1 = JsMap.get k m2) ->
  m1 = m2.
Proof.
  unfold JsMap.wf.
  induction m1 as [|[k1 v1] m1 IH]; intros [|[k2 v2] m2] W K G;
    simpl in *; try discriminate; [reflexivity|].
  inversion K; subst. inversion W as [|? ? Hn W']; subst.
  pose proof (G k2) as G2. rewrite String.eqb_refl in G2. inversion G2; subst.
  f_equal. apply IH; try assumption.
  intros k. specialize (G k).
  destruct (String.eqb_spec k k2) as [E|N]; [|exact G].
  subst k. rewrite !get_not_key; [reflexivity| |exact Hn].
  rewrite <- H1. exact Hn.
Qed.

End SetFacts.

(** ** Scanning *)

Section ScanProofs.
Variable relative : string -> string -> string.
Variable rootPath : string.
Variable maxFileSize : Z.

Let run := runCall relative rootPath maxFileSize.
Let event := callEvent relative rootPath maxFileSize.

Lemma runCall_event files c : run files c = applyEvent files (event c).
Proof.
  unfold run, runCall, event, callEvent, processFile.
  destruct c as [[filePath stat] data]. cbv beta iota zeta. cbn [fst snd].
  destruct (Str.mem (Str.toLowerCase (Path.extname filePath)) CODE_EXTENSIONS);
    [|reflexivity]. cbn [negb].
  destruct stat as [statSize|]; [|reflexivity].
  destruct data as [content|]; destruct (maxFileSize <? statSize)%Z; reflexivity.
Qed.

Lemma event_record c k v :
  shouldIgnore (fst (fst c)) = false ->
  event c = Some (k, v) -> scannedRecord relative rootPath maxFileSize k v.
Proof.
  unfold event, callEvent. destruct c as [[filePath stat] data].
  cbv beta iota zeta. cbn [fst snd]. intros NI.
  destruct (Str.mem (Str.toLowerCase (Path.extname filePath)) CODE_EXTENSIONS)
    eqn:M; cbn [negb]; [|discriminate].
  destruct stat as [statSize|]; [|discriminate].
  destruct data as [text|]; [|discriminate].
  destruct (Z.ltb_spec maxFileSize statSize) as [L|L]; [discriminate|].
  intros E. inversion E; subst. exists filePath. cbn [path extension size
    relevanceScore imports content].
  repeat split; try reflexivity; try assumption.
  apply mem_In, M.
Qed.

Lemma run_invariant calls : forall files,
  Forall (fun c => shouldIgnore (fst (fst c)) = false) calls ->
  JsMap.wf files ->
  (forall k fi, In (k, fi) files ->
                scannedRecord relative rootPath maxFileSize k fi) ->
  JsMap.wf (fold_left run calls files)
  /\ (forall k fi, In (k, fi) (fold_left run calls files) ->
                   scannedRecord relative rootPath maxFileSize k fi).
Proof.
  induction calls as [|c calls IH]; intros files F W R; simpl; [tauto|].
  inversion F as [|? ? Fc F']; subst.
  apply IH; [exact F'| |]; rewrite runCall_event;
    destruct (event c) as [[k v]|] eqn:E; simpl; try assumption.
  - apply set_wf, W.
  - intros k' fi' H. apply In_set in H. destruct H as [[-> ->]|H].
    + apply (event_record c); assumption.
    + apply R, H.
Qed.

Lemma run_keeps_keys calls : forall files,
  incl (JsMap.keys files) (JsMap.keys (fold_left run calls files)).
Proof.
  induction calls as [|c calls IH]; intros files; simpl; [apply incl_refl|].
  eapply incl_tran; [|apply IH].
  rewrite runCall_event. destruct (event c) as [[k v]|]; simpl; [|apply incl_refl].
  rewrite keys_set. destruct (Str.mem k (JsMap.keys files));
    [apply incl_refl | apply incl_appl, incl_refl].
Qed.

Lemma get_run k calls : forall files,
  JsMap.get k (fold_left run calls files)
  = fold_left (lastEvent k) (map event calls) (JsMap.get k files).
Proof.
  induction calls as [|c calls IH]; intros files; simpl; [reflexivity|].
  rewrite IH, runCall_event. destruct (event c) as [[k' v]|]; simpl; [|reflexivity].
  rewrite get_set. reflexivity.
Qed.

Lemma lastEvent_touched k es : forall a b,
  existsb (touches k) es = true ->
  fold_left (lastEvent k) es a = fold_left (lastEvent k) es b.
Proof.
  induction es as [|e es IH]; intros a b; simpl; [discriminate|].
  destruct e as [[k' v]|]; simpl.
  - destruct (String.eqb k k'); simpl.
    + intros _. reflexivity.
    + apply IH.
  - apply IH.
Qed.

Lemma lastEvent_untouched k es : forall a,
  existsb (touches k) es = false -> fold_left (lastEvent k) es a = a.
Proof.
  induction es as [|e es IH]; intros a; simpl; [reflexivity|].
  destruct e as [[k' v]|]; simpl.
  - destruct (String.eqb k k'); simpl; [discriminate | apply IH].
  - apply IH.
Qed.

Lemma run_keys_origin k calls : forall files,
  In k (JsMap.keys (fold_left run calls files)) ->
  In k (JsMap.keys files) \/ existsb (touches k) (map event calls) = true.
Proof.
  induction calls as [|c calls IH]; intros files; simpl; [tauto|].
  intros H. apply IH in H. rewrite runCall_event in H.
  destruct (event c) as [[k' v]|]; simpl in *; [|tauto].
  destruct H as [H|H]; [|rewrite H, orb_true_r; tauto].
  rewrite keys_set in H. destruct (Str.mem k' (JsMap.keys files)); [tauto|].
  apply in_app_or in H. destruct H as [H|[<-|[]]]; [tauto|].
  rewrite String.eqb_refl. tauto.
Qed.

Lemma run_keys_touched k calls : forall files,
  existsb (touches k) (map event calls) = true ->
  In k (JsMap.keys (fold_left run calls files)).
Proof.
  induction calls as [|c calls IH]; intros files; simpl; [discriminate|].
  intros H. apply orb_true_iff in H. destruct H as [H|H]; [|apply IH, H].
  apply (run_keeps_keys calls). rewrite runCall_event.
  destruct (event c) as [[k' v]|]; simpl in *; [|discriminate].
  apply String.eqb_eq in H. subst k'. rewrite keys_set.
  destruct (Str.mem k (JsMap.keys files)) eqn:M; [apply mem_In, M|].
  apply in_or_app. right. left. reflexivity.
Qed.

Lemma run_keys_present calls : forall files,
  (forall k, existsb (touches k) (map event calls) = true ->
             In k (JsMap.keys files)) ->
  JsMap.keys (fold_left run calls files) = JsMap.keys files.
Proof.
  induction calls as [|c calls IH]; intros files H; simpl; [reflexivity|].
  simpl in H. rewrite runCall_event.
  destruct (event c) as [[k v]|] eqn:E; simpl in *.
  - assert (Kk : JsMap.keys (JsMap.set k v files) = JsMap.keys files).
    { rewrite keys_set.
      replace (Str.mem k (JsMap.keys files)) with true; [reflexivity|].
      symmetry. apply mem_In. apply (H k). rewrite String.eqb_refl. reflexivity. }
    rewrite IH; [exact Kk|].
    intros k' T. rewrite Kk. apply H. rewrite T. apply orb_true_r.
  - apply IH. exact H.
Qed.

Lemma run_wf calls : forall files,
  JsMap.wf files -> JsMap.wf (fold_left run calls files).
Proof.
  induction calls as [|c calls IH]; intros files W; simpl; [exact W|].
  apply IH. rewrite runCall_event. destruct (event c) as [[k v]|]; simpl;
    [apply set_wf, W | exact W].
Qed.

(** Running the same calls on a catalog that already holds exactly the
    keys they produce gives the catalog they produce from nothing. *)
Lemma run_again calls files' :
  JsMap.keys files' = JsMap.keys (fold_left run calls []) ->
  JsMap.wf files' ->
  fold_left run calls files' = fold_left run calls [].
Proof.
  intros K W.
  assert (T : forall k, existsb (touches k) (map event calls) = true ->
                        In k (JsMap.keys files')).
  { intros k H. rewrite K. apply run_keys_touched, H. }
  apply map_ext_keys.
  - apply run_wf, W.
  - rewrite (run_keys_present calls files' T). exact K.
  - intros k. rewrite !get_run.
    destruct (existsb (touches k) (map event calls)) eqn:X.
    + apply lastEvent_touched, X.
    + rewrite !lastEvent_untouched by exact X.
      simpl. apply get_not_key. intros H. rewrite K in H.
      apply run_keys_origin in H. destruct H as [[]|H]. congruence.
Qed.

End ScanProofs.

Lemma scan_wf (join relative : string -> string -> string)
    (rootPath : string) (maxFileSize : option Z) (tree : dirListing) :
  JsMap.wf (scanProject join relative rootPath maxFileSize tree []).
Proof.
  unfold scanProject. rewrite scanDirectory_calls. apply run_wf. constructor.
Qed.

(** X17. A scan from the empty catalog yields a well-formed catalog (no
    key twice) in which every record comes from a path that is not
    ignored, is keyed by its relative path, has a lower-cased extension
    among [CODE_EXTENSIONS], a size of at most [maxFileSize], score 0 and
    the import set extracted from its content. *)
Theorem scanned_catalog_records (join relative : string -> string -> string)
    (rootPath : string) (maxFileSize : option Z) (tree : dirListing) :
  let files := scanProject join relative rootPath maxFileSize tree [] in
  JsMap.wf files
  /\ (forall k fi, In (k, fi) files ->
        scannedRecord relative rootPath (orDefault maxFileSize 1000000%Z) k fi).
Proof.
  intros files. unfold files, scanProject. rewrite scanDirectory_calls.
  apply run_invariant.
  - apply dirCalls_not_ignored.
  - constructor.
  - intros k fi [].
Qed.

(** X18. A scan never removes an entry: every key the catalog held
    before [scanProject] is still a key afterwards. *)
Theorem scan_never_removes (join relative : string -> string -> string)
    (rootPath : string) (maxFileSize : option Z) (tree : dirListing)
    (files : Catalog) :
  incl (JsMap.keys files)
       (JsMap.keys (scanProject join relative rootPath maxFileSize tree files)).
Proof.
  unfold scanProject. rewrite scanDirectory_calls. apply run_keeps_keys.
Qed.

(** X19. Scanning the same tree again after a scoring pass gives back
    exactly the freshly scanned catalog: same entries, same order, all
    scores reset to 0. *)
Theorem rescan_restores_fresh_catalog (join relative : string -> string -> string)
    (rootPath : string) (maxFileSize : option Z) (tree : dirListing)
    (query : string) (ctx : option (list string)) :
  let scan := scanProject join relative rootPath maxFileSize tree in
  scan (fst (calculateRelevance (scan []) query ctx)) = scan [].
Proof.
  intros scan.
  assert (W : JsMap.wf (scan []))
    by apply (scan_wf join relative rootPath maxFileSize tree).
  unfold scan, scanProject in *. rewrite !scanDirectory_calls in *.
  apply run_again.
  - rewrite calculateRelevance_map by exact W. simpl. apply keys_rescore.
  - apply calculateRelevance_wf, W.
Qed.

Lemma scanned_catalog_records_witness :
  JsMap.wf (scanProject posixJoin posixRelative "/home/dev/app" None
              sampleTree []).
Proof.
  exact (proj1 (scanned_catalog_records posixJoin posixRelative "/home/dev/app"
                  None sampleTree)).
Defined.

(** ** Ignore rules *)

Lemma basenameFrom_split : forall s last cur,
  Str.basenameFrom s last cur = last
  \/ In (Str.basenameFrom s last cur) (Path.splitFrom s cur).
Proof.
  induction s as [|c s IH]; intros last cur; simpl.
  - destruct (Str.isEmpty cur); tauto.
  - destruct (Ascii.eqb c Str.slash).
    + destruct (IH (if Str.isEmpty cur then last else cur) ""%string) as [E|I].
      * rewrite E. destruct (Str.isEmpty cur); simpl; tauto.
      * simpl. tauto.
    + apply IH.
Qed.

Lemma basename_split p :
  Str.basename p = ""%string \/ In (Str.basename p) (Path.split p).
Proof. apply basenameFrom_split. Qed.

Lemma startsWith_includes s sub :
  Str.startsWith s sub = true -> Str.includes s sub = true.
Proof. intros H. destruct s; simpl; rewrite H; reflexivity. Qed.

Lemma startsWith_prefix s p q :
  Str.startsWith s (p ++ q) = true -> Str.startsWith s p = true.
Proof.
  rewrite !startsWith_app. intros [post ->]. exists (q ++ post)%string.
  apply append_assoc.
Qed.

Lemma shouldIgnore_part path part pattern :
  In part (Path.split path) -> In pattern IGNORE_PATTERNS ->
  Str.includes part pattern = true -> shouldIgnore path = true.
Proof.
  intros Hp Hq I. unfold shouldIgnore.
  replace (existsb _ IGNORE_PATTERNS) with true; [reflexivity|].
  symmetry. apply existsb_exists. exists pattern. split; [exact Hq|].
  apply existsb_exists. exists part. split; [exact Hp|].
  rewrite I. apply orb_true_r.
Qed.

Lemma includes_empty_pattern pattern :
  In pattern IGNORE_PATTERNS -> Str.includes "" pattern = false.
Proof.
  unfold IGNORE_PATTERNS. simpl.
  intros H. repeat (destruct H as [<-|H]; [reflexivity|]). contradiction.
Qed.

Lemma shouldIgnore_basename path pattern :
  In pattern IGNORE_PATTERNS ->
  Str.includes (Str.basename path) pattern = true ->
  shouldIgnore path = true.
Proof.
  intros Hq I. destruct (basename_split path) as [E|Hp].
  - rewrite E, (includes_empty_pattern pattern Hq) in I. discriminate I.
  - apply (shouldIgnore_part path _ pattern Hp Hq I).
Qed.

(** X20. A path is ignored as soon as one of its components, or its base
    name, contains an ignore pattern as a substring (so [builder.ts] is
    ignored for containing [build]). *)
Theorem ignored_by_component (path pattern : string) :
  In pattern IGNORE_PATTERNS ->
  (exists part, In part (Path.split path) /\ Str.includes part pattern = true)
  \/ Str.includes (Str.basename path) pattern = true ->
  shouldIgnore path = true.
Proof.
  intros Hq [[part [Hp I]]|I].
  - apply (shouldIgnore_part path part pattern); assumption.
  - apply (shouldIgnore_basename path pattern); assumption.
Qed.

Lemma ignored_by_component_witness :
  shouldIgnore "/home/dev/app/src/builder.ts" = true.
Proof.
  apply (ignored_by_component "/home/dev/app/src/builder.ts" "build").
  - simpl. tauto.
  - right. reflexivity.
Defined.

(** X21. A dot-file that is not ignored has a name starting with [.env],
    [.eslintrc] or [.prettierrc]; a name starting with [.git], such as
    [.gitignore], is always ignored. *)
Theorem surviving_dotfiles (path : string) :
  shouldIgnore path = false ->
  Str.startsWith (Str.basename path) "." = true ->
  Str.startsWith (Str.basename path) ".git" = false
  /\ (Str.startsWith (Str.basename path) ".env" = true
      \/ Str.startsWith (Str.basename path) ".eslintrc" = true
      \/ Str.startsWith (Str.basename path) ".prettierrc" = true).
Proof.
  intros H D.
  assert (G : Str.startsWith (Str.basename path) ".git" = false).
  { destruct (Str.startsWith (Str.basename path) ".git") eqn:E; [|reflexivity].
    rewrite (shouldIgnore_basename path ".git") in H; [discriminate H| |].
    - simpl. tauto.
    - apply startsWith_includes, E. }
  split; [exact G|].
  unfold shouldIgnore in H.
  destruct (existsb _ IGNORE_PATTERNS); [discriminate H|].
  destruct (Str.mem _ IGNORE_EXTENSIONS); [discriminate H|].
  rewrite D in H. unfold dotfileKept in H.
  destruct (Str.startsWith (Str.basename path) ".env"); [tauto|].
  destruct (Str.startsWith (Str.basename path) ".gitignore") eqn:E.
  - apply (startsWith_prefix _ ".git" "ignore") in E. congruence.
  - destruct (Str.startsWith (Str.basename path) ".eslintrc"); [tauto|].
    destruct (Str.startsWith (Str.basename path) ".prettierrc"); [tauto|].
    discriminate H.
Qed.

Lemma surviving_dotfiles_witness :
  shouldIgnore "/home/dev/app/.eslintrc.json" = false /\
  Str.startsWith (Str.basename "/home/dev/app/.eslintrc.json") ".git" = false.
Proof.
  split; [reflexivity|].
  exact (proj1 (surviving_dotfiles "/home/dev/app/.eslintrc.json"
                  eq_refl eq_refl)).
Defined.

Lemma splitFrom_join d : forall cur n,
  Path.splitFrom (posixJoin d n) cur = Path.splitFrom d cur ++ Path.split n.
Proof.
  unfold posixJoin.
  induction d as [|c d IH]; intros cur n; simpl.
  - reflexivity.
  - destruct (Ascii.eqb c Str.slash); [rewrite IH; reflexivity | apply IH].
Qed.

Lemma split_posixJoin d n part :
  In part (Path.split d) -> In part (Path.split (posixJoin d n)).
Proof.
  intros H. unfold Path.split. rewrite splitFrom_join.
  apply in_or_app. left. exact H.
Qed.

(** X22. When a component of the root path contains an ignore pattern
    (and joining keeps the components of the directory), the scan adds
    nothing to the catalog: every entry's full path is ignored. *)
Theorem ignored_root_scans_nothing (join relative : string -> string -> string)
    (rootPath : string) (maxFileSize : option Z) (tree : dirListing)
    (files : Catalog) (part pattern : string) :
  (forall d n p, In p (Path.split d) -> In p (Path.split (join d n))) ->
  In part (Path.split rootPath) ->
  In pattern IGNORE_PATTERNS ->
  Str.includes part pattern = true ->
  scanProject join relative rootPath maxFileSize tree files = files.
Proof.
  intros J Hp Hq I. unfold scanProject.
  destruct tree as [|entries]; [reflexivity|]. simpl.
  induction entries as [|name child rest IH]; simpl; [reflexivity|].
  rewrite (shouldIgnore_part (join rootPath name) part pattern (J _ _ _ Hp) Hq I).
  exact IH.
Qed.

Lemma ignored_root_scans_nothing_witness :
  scanProject posixJoin posixRelative "/home/dev/build/app" None sampleTree [] = []
  /\ JsMap.keys (scanProject posixJoin posixRelative "/home/dev/app" None
                   sampleTree [])
     = ["src/a.ts"; "README.md"].
Proof.
  split; [|vm_compute; reflexivity].
  apply (ignored_root_scans_nothing posixJoin posixRelative "/home/dev/build/app"
           None sampleTree [] "build" "build").
  - apply split_posixJoin.
  - simpl. tauto.
  - simpl. tauto.
  - reflexivity.
Defined.
